(** * Wildfire detection on GOES level-1 scans: radiometric step and batch search

    Shallow embedding of
    - [src/wildfire/goes/scan.py] (class [GoesScan]: radiometric processing,
      plotting choice, unimplemented hooks), and
    - [src/wildfire/models/threshold_model/goes_level_1_wildfires.py]
      (per-scan classification, batch search, result persistence). *)

From Stdlib Require Import ZArith QArith Reals Lra Lia Ascii String DecimalString.
From Stdlib Require Import Floats DecimalPos DecimalN.
From stdpp Require Import base option list strings gmap.

(** Decimal float literals denote the nearest binary64 number, as in
    Python. *)
#[local] Set Warnings "-inexact-float".

#[local] Open Scope string_scope.
#[local] Open Scope list_scope.

(** ** Python exceptions and results *)

(** The exception classes that matter to the code: [ValueError] is the only
    one [parse_scan_for_wildfire] catches; the others stand for everything
    else a callee may raise. *)
Inductive exception : Type :=
  | ValueError (msg : string)
  | OSError (msg : string)
  | KeyError (key : string)
  | AttributeError (name : string)
  | NotImplementedError.

Inductive result (A : Type) : Type :=
  | Ok (a : A)
  | Raise (e : exception).
Arguments Ok {A} a.
Arguments Raise {A} e.

Definition is_ValueError (e : exception) : bool :=
  match e with ValueError _ => true | _ => false end.

(** Sequencing of calls that may raise: the first exception propagates. *)
#[export] Instance result_ret : MRet result := fun _ a => Ok a.
#[export] Instance result_bind : MBind result := fun _ _ k r =>
  match r with
  | Ok a => k a
  | Raise e => Raise e
  end.

(** ** Arrays of floating-point numbers

    numpy and xarray compute element by element with the operations of the
    element type.  The element type and its operations are kept abstract:
    the arithmetic operators of the arrays are one interface, [np.log] is
    another.  The real numbers (exact arithmetic, [ln]) are an instance of
    both; [np.float64], the IEEE binary64 numbers with rounding to nearest,
    is an instance of the first. *)
Class NumOps (F : Type) : Type := {
  fadd : F -> F -> F;
  fsub : F -> F -> F;
  fmul : F -> F -> F;
  fdiv : F -> F -> F;
  fone : F
}.

Class LogOp (F : Type) : Type := {
  flog : F -> F
}.

#[export] Instance R_NumOps : NumOps R := {
  fadd := Rplus; fsub := Rminus; fmul := Rmult; fdiv := Rdiv; fone := 1%R
}.

#[export] Instance R_LogOp : LogOp R := { flog := ln }.

#[export] Instance float64_NumOps : NumOps float := {
  fadd := PrimFloat.add; fsub := PrimFloat.sub; fmul := PrimFloat.mul;
  fdiv := PrimFloat.div; fone := 1%float
}.

(** A variable of an [xr.Dataset]: a 0-dimensional value (the calibration
    constants) or a 2-dimensional image (rows of pixels). *)
Inductive DataArray (F : Type) : Type :=
  | Scalar (x : F)
  | Grid (rows : list (list F)).
Arguments Scalar {F} x.
Arguments Grid {F} rows.

Section Arrays.
Context {F : Type}.

Definition grid_map {A B : Type} (f : A -> B) (g : list (list A))
  : list (list B) :=
  map (map f) g.

Fixpoint row_zip (op : F -> F -> F) (r1 r2 : list F) : list F :=
  match r1, r2 with
  | x :: r1', y :: r2' => op x y :: row_zip op r1' r2'
  | _, _ => []
  end.

Fixpoint grid_zip (op : F -> F -> F) (g1 g2 : list (list F))
  : list (list F) :=
  match g1, g2 with
  | r1 :: g1', r2 :: g2' => row_zip op r1 r2 :: grid_zip op g1' g2'
  | _, _ => []
  end.

(** Element-wise binary operation with broadcasting of 0-dimensional
    operands. *)
Definition broadcast (op : F -> F -> F) (a b : DataArray F) : DataArray F :=
  match a, b with
  | Scalar x, Scalar y => Scalar (op x y)
  | Scalar x, Grid g => Grid (grid_map (op x) g)
  | Grid g, Scalar y => Grid (grid_map (fun x => op x y) g)
  | Grid g1, Grid g2 => Grid (grid_zip op g1 g2)
  end.

(** Element-wise unary function ([np.log]). *)
Definition ufunc (f : F -> F) (a : DataArray F) : DataArray F :=
  match a with
  | Scalar x => Scalar (f x)
  | Grid g => Grid (grid_map f g)
  end.
End Arrays.

(** ** [datetime.datetime] and [strftime] *)

Record datetime : Type := {
  year : N; month : N; day : N;
  hour : N; minute : N; second : N; microsecond : N
}.

(** Decimal numeral of [n], zero-padded on the left to [width] digits. *)
Definition zfill (width : nat) (n : N) : string :=
  let s := NilZero.string_of_uint (N.to_uint n) in
  String.concat "" (replicate (width - String.length s) "0") +:+ s.

(** One [strftime] directive.  Only the directives the source uses are
    interpreted; any other character is emitted after its percent sign.
    [%Y] is written with four digits, which is what the C library prints
    for the years 1000 to 9999; it does not pad earlier years. *)
Definition strftime_directive (c : ascii) (t : datetime) : string :=
  if decide (c = "Y"%char) then zfill 4 (year t)
  else if decide (c = "m"%char) then zfill 2 (month t)
  else if decide (c = "d"%char) then zfill 2 (day t)
  else if decide (c = "H"%char) then zfill 2 (hour t)
  else if decide (c = "M"%char) then zfill 2 (minute t)
  else if decide (c = "S"%char) then zfill 2 (second t)
  else if decide (c = "f"%char) then zfill 6 (microsecond t)
  else if decide (c = "%"%char) then "%"
  else String "%" (String c "").

Fixpoint strftime (t : datetime) (format : string) : string :=
  match format with
  | "" => ""
  | String c rest =>
      if decide (c = "%"%char) then
        match rest with
        | String d rest' => strftime_directive d t +:+ strftime t rest'
        | "" => "%"
        end
      else String c (strftime t rest)
  end.

(** [str(datetime)]: ISO format with a space separator; the fraction is
    printed only when it is not zero. *)
Definition str_datetime (t : datetime) : string :=
  strftime t "%Y-%m-%d %H:%M:%S" +:+
  (if (microsecond t =? 0)%N then "" else "." +:+ zfill 6 (microsecond t)).

Definition str_int (n : Z) : string :=
  match n with
  | Zneg p => "-" +:+ NilZero.string_of_uint (N.to_uint (Npos p))
  | _ => NilZero.string_of_uint (N.to_uint (Z.to_N n))
  end.

(** The line feed of the f-strings. *)
Definition newline : string := String (ascii_of_nat 10) "".

(** ** Module [wildfire.goes.scan]: the class [GoesScan]

    Log lines of this module are not modelled. *)

Module scan.
Section GoesScanClass.
Context {F : Type} `{NumOps F} `{LogOp F}.

(** A dataset maps variable names to arrays. *)
Abbreviation Dataset := (gmap string (DataArray F)).

(** [ds.name]: attribute access to a variable. *)
Definition getattr (ds : Dataset) (name : string) : result (DataArray F) :=
  match ds !! name with
  | Some a => Ok a
  | None => Raise (AttributeError name)
  end.

(** [dataset.assign(name=value)]: a new dataset with the variable added
    (or replaced). *)
Definition assign (ds : Dataset) (name : string) (value : DataArray F)
  : Dataset :=
  <[name := value]> ds.

(** [dataset.assign(reflectance_factor=lambda ds: ds.Rad * ds.kappa0)] *)
Definition _calculate_reflectance_factor (dataset : Dataset)
  : result Dataset :=
  Rad ← getattr dataset "Rad";
  kappa0 ← getattr dataset "kappa0";
  Ok (assign dataset "reflectance_factor" (broadcast fmul Rad kappa0)).

(** [(ds.planck_fk2 / (np.log((ds.planck_fk1 / ds.Rad) + 1)) - ds.planck_bc1)
     / ds.planck_bc2]; Python evaluates the operands left to right. *)
Definition _calculate_brightness_temperature (dataset : Dataset)
  : result Dataset :=
  planck_fk2 ← getattr dataset "planck_fk2";
  planck_fk1 ← getattr dataset "planck_fk1";
  Rad ← getattr dataset "Rad";
  planck_bc1 ← getattr dataset "planck_bc1";
  planck_bc2 ← getattr dataset "planck_bc2";
  Ok (assign dataset "brightness_temperature"
        (broadcast fdiv
           (broadcast fsub
              (broadcast fdiv planck_fk2
                 (ufunc flog
                    (broadcast fadd (broadcast fdiv planck_fk1 Rad)
                       (Scalar fone))))
              planck_bc1)
           planck_bc2)).


(** What the module calls but does not define: [utilities], [downloader],
    [os.path.exists] and [xr.open_dataset]. *)
Record Collaborators : Type := {
  parse_filepath : string -> result (string * Z * string * datetime);
  build_local_path : string -> string -> string -> string;
  os_path_exists : string -> bool;
  open_dataset : string -> result Dataset;
  download_scan : string -> string -> string -> result string
}.

Record GoesScan : Type := {
  region : string;
  channel : Z;
  satellite : string;
  started_at_utc : datetime;
  filepath : string;
  local_directory : string;
  dataset : Dataset
}.

Definition _process (self : GoesScan) (dataset : Dataset) : result Dataset :=
  dataset ← _calculate_reflectance_factor dataset;
  dataset ← _calculate_brightness_temperature dataset;
  Ok dataset.

Definition _check_local (env : Collaborators) (self : GoesScan)
  : result (option Dataset) :=
  let local_filepath :=
    build_local_path env (local_directory self) (filepath self)
      (satellite self) in
  if os_path_exists env local_filepath then
    ds ← open_dataset env local_filepath; Ok (Some ds)
  else Ok None.

Definition _get (env : Collaborators) (self : GoesScan) : result Dataset :=
  scan ← _check_local env self;
  scan ← match scan with
         | Some ds => Ok ds
         | None =>
             file_path ← download_scan env (satellite self) (filepath self)
                           (local_directory self);
             open_dataset env file_path
         end;
  _process self scan.

(** [GoesScan(filepath, local_directory)].  While [_get] runs the object
    has no [dataset] attribute yet, and [_get] reads none: the empty
    dataset stands for the missing attribute. *)
Definition __init__ (env : Collaborators) (filepath local_directory : string)
  : result GoesScan :=
  '(region, channel, satellite, started_at_utc) ←
    parse_filepath env filepath;
  let self := {| region := region; channel := channel;
                 satellite := satellite; started_at_utc := started_at_utc;
                 filepath := filepath; local_directory := local_directory;
                 dataset := ∅ |} in
  ds ← _get env self;
  Ok {| region := region; channel := channel;
        satellite := satellite; started_at_utc := started_at_utc;
        filepath := filepath; local_directory := local_directory;
        dataset := ds |}.

(** [x in range(start, stop)] for an integer [x]. *)
Definition in_range (start stop x : Z) : bool :=
  ((start <=? x) && (x <? stop))%Z.

(** What [plot] puts on the axis: the title and the image shown. *)
Record Axes : Type := { title : string; image : DataArray F }.

Definition plot (self : GoesScan) : result Axes :=
  let title_info :=
    str_int (channel self) +:+ newline +:+
    str_datetime (started_at_utc self) +:+ " UTC" in
  if in_range 1 6 (channel self) then
    img ← getattr (dataset self) "reflectance_factor";
    Ok {| title := "Reflectance Factor Band " +:+ newline +:+ title_info;
          image := img |}
  else
    img ← getattr (dataset self) "brightness_temperature";
    Ok {| title := "Brightness Temperature Band " +:+ newline +:+ title_info;
          image := img |}.

Definition _to_2km_resolution (self : GoesScan) : result unit :=
  Raise NotImplementedError.

Definition _filter_bad_pixels (self : GoesScan) : result unit :=
  Raise NotImplementedError.
End GoesScanClass.
Arguments Collaborators F : clear implicits.
Arguments GoesScan F : clear implicits.
Arguments Axes F : clear implicits.
End scan.

(** ** Effects of the batch modules: logging, the clock, the result file *)

#[warnings="-register-all"]
Inductive json : Type :=
  | JString (s : string)
  | JObject (members : list (string * json)).

Inductive logarg : Type :=
  | ArgInt (n : Z)
  | ArgStr (s : string)
  | ArgStrs (l : list string)
  | ArgExn (e : exception).

Inductive loglevel : Type := INFO | WARNING.

(** What a run leaves behind: log records ([_logger.info], [_logger.warning]
    with their format string and arguments) and files written. *)
Inductive event : Type :=
  | Log (level : loglevel) (format : string) (args : list logarg)
  | FileWrite (path : string) (content : json).

(** The process environment: [datetime.datetime.utcnow()], [os.cpu_count()],
    what [open(path, "w+")] raises for a path that cannot be opened for
    writing (a missing directory, say), and the events so far, oldest
    first. *)
Record World : Type := {
  utcnow : datetime;
  cpu_count : Z;
  open_error : string -> option exception;
  events : list event
}.

Definition emit (e : event) (w : World) : World :=
  {| utcnow := utcnow w; cpu_count := cpu_count w;
     open_error := open_error w;
     events := events w ++ [e] |}.

(** A computation that reads and extends the world and may raise. *)
Definition M (A : Type) : Type := World -> result A * World.

#[export] Instance M_ret : MRet M := fun _ a w => (Ok a, w).
#[export] Instance M_bind : MBind M := fun _ _ k m w =>
  match m w with
  | (Ok a, w') => k a w'
  | (Raise e, w') => (Raise e, w')
  end.

Definition lift {A : Type} (r : result A) : M A := fun w => (r, w).

Definition logger_info (format : string) (args : list logarg) : M unit :=
  fun w => (Ok tt, emit (Log INFO format args) w).

Definition logger_warning (format : string) (args : list logarg) : M unit :=
  fun w => (Ok tt, emit (Log WARNING format args) w).

Definition datetime_utcnow : M datetime := fun w => (Ok (utcnow w), w).

Definition os_cpu_count : M Z := fun w => (Ok (cpu_count w), w).

(** [with open(path, "w+") as buffer: json.dump(obj, buffer)]: when [open]
    raises, nothing is written and the exception propagates. *)
Definition json_dump_to (path : string) (obj : json) : M unit :=
  fun w =>
    match open_error w path with
    | Some e => (Raise e, w)
    | None => (Ok tt, emit (FileWrite path obj) w)
    end.

(** [try: body except ValueError as error_message: ...]: a [ValueError] is
    handed to the handler, every other exception propagates. *)
Definition try_except_ValueError {A : Type} (body : M A)
    (handler : exception -> M A) : M A :=
  fun w =>
    match body w with
    | (Raise (ValueError msg), w') => handler (ValueError msg) w'
    | other => other
    end.

Definition file_writes (w : World) : list (string * json) :=
  omap (fun e => match e with
                 | FileWrite path content => Some (path, content)
                 | Log _ _ _ => None
                 end) (events w).

Definition warnings (w : World) : list (string * list logarg) :=
  omap (fun e => match e with
                 | Log WARNING format args => Some (format, args)
                 | _ => None
                 end) (events w).

(** ** Python built-ins used by the batch module *)

(** A [dict] with string keys, in insertion order. *)
Abbreviation pydict V := (list (string * V)).

Definition dict_get {V : Type} (d : pydict V) (key : string) : result V :=
  match list_find (fun kv => kv.1 = key) d with
  | Some (_, (_, v)) => Ok v
  | None => Raise (KeyError key)
  end.

(** [template.format(...)] with keyword arguments, for templates whose replacement fields are
    plain names, as [WILDFIRE_FILENAME] is.  [field] is the name read so far
    when the scan is between braces. *)
Fixpoint format_go (template : string) (field : option string)
    (kwargs : pydict string) : result string :=
  match template, field with
  | "", None => Ok ""
  | "", Some _ => Raise (ValueError "expected '}' before end of string")
  | String c rest, None =>
      if decide (c = "{"%char) then format_go rest (Some "") kwargs
      else s ← format_go rest None kwargs; Ok (String c s)
  | String c rest, Some name =>
      if decide (c = "}"%char) then
        v ← dict_get kwargs name;
        s ← format_go rest None kwargs;
        Ok (v +:+ s)
      else format_go rest (Some (name +:+ String c "")) kwargs
  end.

Definition str_format (template : string) (kwargs : pydict string)
  : result string :=
  format_go template None kwargs.

Definition last_char (s : string) : option ascii :=
  last (list_ascii_of_string s).

(** [os.path.join(a, b)] on POSIX. *)
Definition os_path_join (a b : string) : string :=
  match b with
  | String "/" _ => b
  | _ =>
      match last_char a with
      | None => b
      | Some c => if decide (c = "/"%char) then a +:+ b else a +:+ "/" +:+ b
      end
  end.

(** [enumerate(l)]: the elements paired with their index, from 0. *)
Definition enumerate {A : Type} (l : list A) : list (Z * A) :=
  imap (fun i x => (Z.of_nat i, x)) l.

(** Truth value of a [dict | None]: [None] and the empty dict are false. *)
Definition truthy {V : Type} (x : option (pydict V)) : bool :=
  match x with
  | Some (_ :: _) => true
  | _ => false
  end.

(** [list(filter(None, xs))]: the true elements, in order. *)
Definition filter_None {V : Type} (xs : list (option (pydict V)))
  : list (pydict V) :=
  omap (fun x => if truthy x then x else None) xs.

(** The value of [ndarray.mean()] and of a comparison with it: a number, or
    NaN for an array without elements; every ordered comparison with NaN is
    false. *)
Inductive float_value : Type :=
  | NaN
  | Finite (q : Q).

Definition count_true (g : list (list bool)) : nat :=
  length (filter (fun b => b = true) (concat g)).

Definition ndarray_size {A : Type} (g : list (list A)) : nat :=
  length (concat g).

(** Mean of a boolean array: the number of [True] over the number of
    elements. *)
Definition ndarray_mean (g : list (list bool)) : float_value :=
  match ndarray_size g with
  | O => NaN
  | S n => Finite (Z.of_nat (count_true g) # Pos.of_succ_nat n)
  end.

Definition float_gt (x : float_value) (y : Q) : bool :=
  match x with
  | NaN => false
  | Finite q => match (q ?= y)%Q with Gt => true | _ => false end
  end.

(** ** Package [wildfire.data.goes_level_1]

    The batch module uses this package through the names below; its code is
    not part of the modules embedded here, so they are an interface.  [F] is
    the element type of the band images.  Assembling a scan
    ([read_netcdfs]) may raise; the accessors of an assembled scan are taken
    to return. *)
Module goes_level_1.
Class Interface (F : Type) : Type := {
  GoesScan : Type;
  GoesBand : Type;
  (** [utilities.group_filepaths_into_scans(filepaths=...)] *)
  group_filepaths_into_scans : list string -> list (list string);
  (** [scan.read_netcdfs(local_filepaths=...)]: the scan, or the exception
      raised while assembling it *)
  read_netcdfs : list string -> result GoesScan;
  scan_time_utc : GoesScan -> datetime;
  region : GoesScan -> string;
  satellite : GoesScan -> string;
  rescale_to_2km : GoesScan -> GoesScan;
  (** [goes_scan["band_7"]] *)
  getitem : GoesScan -> string -> GoesBand;
  (** [band.brightness_temperature.data], [band.reflectance_factor.data] *)
  brightness_temperature : GoesBand -> list (list F);
  reflectance_factor : GoesBand -> list (list F)
}.
End goes_level_1.

(** ** Module [wildfire.models.threshold_model.model] *)
Module threshold_model.
Record ModelFeatures : Type := {
  is_hot : list (list bool);
  is_night : list (list bool);
  is_water : list (list bool);
  is_cloud : list (list bool)
}.

(** The four pixel tests; their thresholds are not part of the modules
    embedded here. *)
Class PixelTests (F : Type) : Type := {
  is_hot_pixel : list (list F) -> list (list F) -> list (list bool);
  is_night_pixel : list (list F) -> list (list F) -> list (list bool);
  is_water_pixel : list (list F) -> list (list bool);
  is_cloud_pixel :
    list (list F) -> list (list F) -> list (list F) -> list (list bool)
}.

(** Modelled from the spec: the final decision of the threshold model,
    [threshold_model.predict], whose code is missing.  The specification
    gives it per pixel as "is_hot AND NOT is_cloud AND NOT is_water"; the
    night mask is an argument and does not enter the decision. *)
Definition predict_pixel (is_hot is_cloud is_night is_water : bool) : bool :=
  is_hot && negb is_cloud && negb is_water.

(** The same on arrays: [is_hot & ~is_cloud & ~is_water], element by
    element over masks of one shape. *)
Definition predict (is_hot is_cloud is_night is_water : list (list bool))
  : list (list bool) :=
  grid_zip andb (grid_zip andb is_hot (grid_map negb is_cloud))
    (grid_map negb is_water).
End threshold_model.

(** ** Module [wildfire.multiprocessing] *)
Module multiprocessing.
(** Modelled from the spec: [map_function], whose code is missing.  The
    specification describes it as a service that runs one function over a
    list of inputs across workers and returns the results in the order of
    the inputs; worker count and scheduler options ([pbs], cluster
    keywords) are opaque configuration.  An exception raised by a task is
    not handled by the service: it reaches the caller, as with any Python
    call.  Tasks share no state, so running them one after the other gives
    the same results. *)
Fixpoint map_function {A B : Type} (function : A -> M B)
    (function_args : list A) (pbs : bool) : M (list B) :=
  match function_args with
  | [] => mret []
  | arg :: rest =>
      value ← function arg;
      values ← map_function function rest pbs;
      mret (value :: values)
  end.
End multiprocessing.

(** ** Module [wildfire.models.threshold_model.goes_level_1_wildfires] *)
Module goes_level_1_wildfires.
Section Wildfires.
Context {F : Type} {gl1 : goes_level_1.Interface F}
  {tests : threshold_model.PixelTests F}.

Definition WILDFIRE_FILENAME : string :=
  "wildfires_{satellite}_{region}_s{start}_e{end}_c{created}.json".
Definition DATETIME_FORMAT : string := "%Y-%m-%dT%H:%M:%S".

(** A wildfire record: the dict returned for a scan with a wildfire. *)
Abbreviation WildfireRecord := (pydict string).

Definition get_model_features (goes_scan : goes_level_1.GoesScan)
  : threshold_model.ModelFeatures :=
  let rescaled_scan := goes_level_1.rescale_to_2km goes_scan in
  let band name := goes_level_1.getitem rescaled_scan name in
  let is_hot :=
    threshold_model.is_hot_pixel
      (goes_level_1.brightness_temperature (band "band_7"))
      (goes_level_1.brightness_temperature (band "band_14")) in
  let is_night :=
    threshold_model.is_night_pixel
      (goes_level_1.reflectance_factor (band "band_2"))
      (goes_level_1.reflectance_factor (band "band_3")) in
  let is_water :=
    threshold_model.is_water_pixel
      (goes_level_1.reflectance_factor (band "band_6")) in
  let is_cloud :=
    threshold_model.is_cloud_pixel
      (goes_level_1.reflectance_factor (band "band_2"))
      (goes_level_1.reflectance_factor (band "band_3"))
      (goes_level_1.brightness_temperature (band "band_15")) in
  {| threshold_model.is_hot := is_hot;
     threshold_model.is_night := is_night;
     threshold_model.is_water := is_water;
     threshold_model.is_cloud := is_cloud |}.

Definition predict_wildfires (goes_scan : goes_level_1.GoesScan)
  : list (list bool) :=
  let model_features := get_model_features goes_scan in
  threshold_model.predict
    (threshold_model.is_hot model_features)
    (threshold_model.is_cloud model_features)
    (threshold_model.is_night model_features)
    (threshold_model.is_water model_features).

(** The [try] covers the call of [read_netcdfs] only.  Its handler returns
    from the function ([inr]); otherwise the scan goes on to the test
    ([inl]). *)
Definition parse_scan_for_wildfire (filepaths : list string)
  : M (option WildfireRecord) :=
  outcome ← try_except_ValueError
    (goes_scan ← lift (goes_level_1.read_netcdfs filepaths);
     mret (inl goes_scan))
    (fun error_message =>
       _ ← logger_warning
             (newline +:+ "Skipping malformed goes_scan comprised of %s." +:+
              newline +:+ "Error: %s")
             [ArgStrs filepaths; ArgExn error_message];
       mret (inr None));
  match outcome with
  | inr returned => mret returned
  | inl goes_scan =>
      if float_gt (ndarray_mean (predict_wildfires goes_scan)) 0 then
        mret (Some
          [("scan_time_utc",
            strftime (goes_level_1.scan_time_utc goes_scan)
              "%Y-%m-%dT%H:%M:%S%f");
           ("region", goes_level_1.region goes_scan);
           ("satellite", goes_level_1.satellite goes_scan)])
      else mret None
  end.

Definition find_wildfires (filepaths : list string) (pbs : bool)
  : M (list WildfireRecord) :=
  _ ← logger_info "Grouping files into scans..." [];
  let scan_filepaths :=
    goes_level_1.group_filepaths_into_scans filepaths in
  cpus ← os_cpu_count;
  _ ← logger_info "Processing %d scans with %d workers..."
        [ArgInt (Z.of_nat (length scan_filepaths)); ArgInt cpus];
  wildfires ← multiprocessing.map_function parse_scan_for_wildfire
                scan_filepaths pbs;
  let wildfires := filter_None wildfires in
  _ ← logger_info "Found %d wildfires."
        [ArgInt (Z.of_nat (length wildfires))];
  mret wildfires.

Definition json_of_record (r : WildfireRecord) : json :=
  JObject (map (fun kv => (kv.1, JString kv.2)) r).

(** The JSON text of a dict with integer keys: the keys become their
    decimal strings. *)
Definition json_of_indexed (d : list (Z * WildfireRecord)) : json :=
  JObject (map (fun ir => (str_int ir.1, json_of_record ir.2)) d).

Definition label_wildfires (scan_filepaths : list (list string))
    (persist_directory satellite region : string) (start end_ : datetime)
    (pbs : bool) : M (list WildfireRecord) :=
  wildfires ← multiprocessing.map_function parse_scan_for_wildfire
                scan_filepaths pbs;
  let wildfires := filter_None wildfires in
  _ ← logger_info "Found %d wildfires."
        [ArgInt (Z.of_nat (length wildfires))];
  _ ← (if (0 <? length wildfires)%nat then
         created ← datetime_utcnow;
         filename ← lift (str_format WILDFIRE_FILENAME
                      [("satellite", satellite);
                       ("region", region);
                       ("start", strftime start DATETIME_FORMAT);
                       ("end", strftime end_ DATETIME_FORMAT);
                       ("created", strftime created DATETIME_FORMAT)]);
         let wildfires_filepath := os_path_join persist_directory filename in
         _ ← logger_info "Persisting wildfires to %s"
               [ArgStr wildfires_filepath];
         json_dump_to wildfires_filepath
           (json_of_indexed (enumerate wildfires))
       else logger_info "No wildfires found..." []);
  mret wildfires.
(** [str(b)] for a boolean. *)
Definition str_bool (b : bool) : string := if b then "True" else "False".

(** What [plot_wildfires] draws: the title and the image of the left axis,
    and the band whose own [plot] fills the right axis. *)
Record WildfirePlot : Type := {
  fire_title : string;
  fire_image : list (list bool);
  scan_band : goes_level_1.GoesBand
}.

Definition plot_wildfires (goes_scan : goes_level_1.GoesScan) : WildfirePlot :=
  let model_predictions := predict_wildfires goes_scan in
  {| fire_title :=
       "Wildfire Present: " +:+
       str_bool (float_gt (ndarray_mean model_predictions) 0);
     fire_image := model_predictions;
     scan_band := goes_level_1.getitem goes_scan "band_7" |}.
End Wildfires.
End goes_level_1_wildfires.

(** ** Reading arrays and datasets *)

(** The element at row [i], column [j]. *)
Definition pixel {A : Type} (g : list (list A)) (i j : nat) : option A :=
  row ← g !! i; row !! j.

(** The brightness-temperature formula for one radiance value. *)
Definition planck_temperature {F : Type} `{NumOps F} `{LogOp F}
    (planck_fk1 planck_fk2 planck_bc1 planck_bc2 raw_radiance : F) : F :=
  fdiv (fsub (fdiv planck_fk2
                (flog (fadd (fdiv planck_fk1 raw_radiance) fone)))
          planck_bc1)
    planck_bc2.

(** The Planck function, which gives the radiance of a brightness
    temperature: the inverse of the formula above over the real numbers.  The
    source has no such function; it serves to state that the formula loses
    no information. *)
Definition planck_radiance
    (planck_fk1 planck_fk2 planck_bc1 planck_bc2 temperature : R) : R :=
  (planck_fk1 /
   (exp (planck_fk2 / (planck_bc1 + planck_bc2 * temperature)) - 1))%R.

(** ** Binary64 numbers

    [np.float64] values are primitive binary64 floats; their operations are
    specified by the standard library ([FloatAxioms]) through [Prim2SF] and
    the reference implementation [SpecFloat]. *)

(** The real number a binary float denotes (0 for infinities and NaN). *)
Definition SF2R (x : spec_float) : R :=
  match x with
  | S754_finite s m e => (IZR (cond_Zopp s (Zpos m)) * powerRZ 2 e)%R
  | _ => 0%R
  end.

Definition float64_real (x : float) : R := SF2R (Prim2SF x).

Definition SF_finite (x : spec_float) : bool :=
  match x with
  | S754_zero _ | S754_finite _ _ _ => true
  | _ => false
  end.

Definition float64_finite (x : float) : bool := SF_finite (Prim2SF x).

(** Unit roundoff of binary64 and the smallest normal magnitude. *)
Definition unit_roundoff : R := (/ 2 ^ 53)%R.
Definition smallest_normal : R := (/ 2 ^ 1022)%R.

(** A real number in the range where binary64 rounding has full precision:
    zero, or of magnitude at least the smallest normal number. *)
Definition no_underflow (x : R) : Prop :=
  x = 0%R ∨ (smallest_normal <= Rabs x)%R.

(** The state of the right shift that rounding performs ([shr_1] iterated):
    where the exact quotient [m0 / P] lies relative to the truncated
    quotient [shr_m], as recorded by the round and sticky bits. *)
Definition shr_inv (m0 P : Z) (mrs : shr_record) : Prop :=
  (0 <= shr_m mrs)%Z ∧
  match shr_r mrs, shr_s mrs with
  | false, false => (m0 - shr_m mrs * P = 0)%Z
  | false, true => (0 < 2 * (m0 - shr_m mrs * P) < P)%Z
  | true, false => (2 * (m0 - shr_m mrs * P) = P)%Z
  | true, true => (P < 2 * (m0 - shr_m mrs * P) < 2 * P)%Z
  end.

(** numpy's comparison operators on [np.float64], element by element:
    [<], [<=], [>], [>=] and [==]. *)
Inductive comparison_op : Type := op_lt | op_le | op_gt | op_ge | op_eq.

Definition np_compare (op : comparison_op) (x y : float) : bool :=
  match op with
  | op_lt => PrimFloat.ltb x y
  | op_le => PrimFloat.leb x y
  | op_gt => PrimFloat.ltb y x
  | op_ge => PrimFloat.leb y x
  | op_eq => PrimFloat.eqb x y
  end.

(** ** Sample data *)

Module sample.
(** Raw variables of a band file, over the real numbers. *)
Definition raw : gmap string (DataArray R) :=
  <["Rad" := Grid [[2; 4]; [5; 8]]%R]>
  (<["kappa0" := Scalar (1 / 4)%R]>
  (<["planck_fk1" := Scalar 200000%R]>
  (<["planck_fk2" := Scalar 3700%R]>
  (<["planck_bc1" := Scalar (1 / 2)%R]>
  (<["planck_bc2" := Scalar 1%R]> ∅))))).

(** What [_process] returns for [raw]. *)
Definition processed : gmap string (DataArray R) :=
  <["brightness_temperature" :=
      Grid (grid_map (planck_temperature 200000 3700 (1 / 2) 1)%R
              [[2; 4]; [5; 8]]%R)]>
  (<["reflectance_factor" :=
      Grid (grid_map (fun r => r * (1 / 4))%R [[2; 4]; [5; 8]]%R)]> raw).

(** Raw radiance and [kappa0] of a one-pixel band, as [np.float64]. *)
Definition raw_float64 : gmap string (DataArray float) :=
  <["Rad" := Grid [[0.1%float]]]> (<["kappa0" := Scalar 0.7%float]> ∅).

(** Raw variables of a band whose radiance has a zero, a negative, a
    missing (NaN) and a saturated value, as [np.float64]. *)
Definition invalid_float64 : gmap string (DataArray float) :=
  <["Rad" := Grid [[0; -1.5]; [nan; 1e308]]%float]>
  (<["kappa0" := Scalar 10%float]>
  (<["planck_fk1" := Scalar 200000%float]>
  (<["planck_fk2" := Scalar 3700%float]>
  (<["planck_bc1" := Scalar 0.5%float]>
  (<["planck_bc2" := Scalar 1%float]> ∅))))).

Definition started : datetime :=
  {| year := 2019; month := 10; day := 27;
     hour := 20; minute := 48; second := 27; microsecond := 500000 |}.

(** A channel-2 (red visible) band object with a processed dataset. *)
Definition band_2 : scan.GoesScan R :=
  {| scan.region := "M1"; scan.channel := 2; scan.satellite := "goes17";
     scan.started_at_utc := started;
     scan.filepath := "ABI-L1b-RadM/2019/300/20/band_2.nc";
     scan.local_directory := "downloaded_data";
     scan.dataset := processed |}.

(** A small stand-in for [goes_level_1], with images over the rationals: a
    scan carries its identification and one image per band name. *)
Record toy_scan : Type := {
  toy_time : datetime;
  toy_region : string;
  toy_satellite : string;
  toy_bands : string → list (list Q)
}.

Definition fire_scan : toy_scan :=
  {| toy_time := started; toy_region := "M1"; toy_satellite := "noaa-goes17";
     toy_bands := fun name =>
       if decide (name = "band_7") then [[300; 400]; [290; 295]]%Q
       else [[290; 290]; [290; 290]]%Q |}.

Definition calm_scan : toy_scan :=
  {| toy_time := started; toy_region := "M2"; toy_satellite := "noaa-goes17";
     toy_bands := fun _ => [[290; 290]; [290; 290]]%Q |}.

(** One file name per group: two scans that assemble, one malformed group
    ([ValueError]), and every other name missing ([OSError]). *)
#[export] Instance toy_goes_level_1 : goes_level_1.Interface Q := {
  goes_level_1.GoesScan := toy_scan;
  goes_level_1.GoesBand := list (list Q);
  goes_level_1.group_filepaths_into_scans := map (fun f => [f]);
  goes_level_1.read_netcdfs := fun filepaths =>
    if decide (filepaths = ["fire.nc"]) then Ok fire_scan
    else if decide (filepaths = ["calm.nc"]) then Ok calm_scan
    else if decide (filepaths = ["short.nc"]) then
      Raise (ValueError "expected 16 bands")
    else Raise (OSError "No such file or directory");
  goes_level_1.scan_time_utc := toy_time;
  goes_level_1.region := toy_region;
  goes_level_1.satellite := toy_satellite;
  goes_level_1.rescale_to_2km := fun goes_scan => goes_scan;
  goes_level_1.getitem := toy_bands;
  goes_level_1.brightness_temperature := fun band => band;
  goes_level_1.reflectance_factor := fun band => band
}.

Definition above (threshold : Q) (x : Q) : bool :=
  match (x ?= threshold)%Q with Gt => true | _ => false end.

(** Stand-ins for the four pixel tests: hot above 350, never night, water
    or cloud. *)
#[export] Instance toy_pixel_tests : threshold_model.PixelTests Q := {
  threshold_model.is_hot_pixel := fun bt_7 _ => grid_map (above 350) bt_7;
  threshold_model.is_night_pixel := fun rf_2 _ => grid_map (fun _ => false) rf_2;
  threshold_model.is_water_pixel := fun rf_6 => grid_map (fun _ => false) rf_6;
  threshold_model.is_cloud_pixel :=
    fun rf_2 _ _ => grid_map (fun _ => false) rf_2
}.

Definition now : datetime :=
  {| year := 2020; month := 1; day := 2;
     hour := 3; minute := 4; second := 5; microsecond := 67 |}.

(** A world in which every directory exists but "missing". *)
Definition world : World :=
  {| utcnow := now; cpu_count := 4;
     open_error := fun path =>
       if String.prefix "missing/" path then
         Some (OSError "No such file or directory")
       else None;
     events := [] |}.

Definition fire_record : pydict string :=
  [("scan_time_utc", "2019-10-27T20:48:27500000");
   ("region", "M1");
   ("satellite", "noaa-goes17")].
End sample.

(** ** Vocabulary of the further properties *)

(** The variables of a band file that the radiometric step reads. *)
Definition RAW_VARIABLES : list string :=
  ["Rad"; "kappa0"; "planck_fk1"; "planck_fk2"; "planck_bc1"; "planck_bc2"].

(** The brightness-temperature expression on whole arrays, as
    [_calculate_brightness_temperature] evaluates it. *)
Definition brightness_temperature_of {F : Type} `{NumOps F} `{LogOp F}
    (planck_fk1 planck_fk2 planck_bc1 planck_bc2 Rad : DataArray F)
  : DataArray F :=
  broadcast fdiv
    (broadcast fsub
       (broadcast fdiv planck_fk2
          (ufunc flog
             (broadcast fadd (broadcast fdiv planck_fk1 Rad) (Scalar fone))))
       planck_bc1)
    planck_bc2.

(** The shape of an image: the lengths of its rows. *)
Definition shape {A : Type} (g : list (list A)) : list nat := length <$> g.



(** A datetime whose fields are in the ranges of [datetime.datetime]. *)
Definition valid_datetime (t : datetime) : Prop :=
  (year t < 10000 ∧ month t < 100 ∧ day t < 100 ∧ hour t < 100 ∧
   minute t < 100 ∧ second t < 100 ∧ microsecond t < 1000000)%N.

(** More sample data: the collaborators of [scan.GoesScan] for a band file
    that is, or is not, in the local directory, and a bucket that has it
    or not. *)
Module fixtures.
Definition toy_io (have_local download_ok : bool) : scan.Collaborators R :=
  {| scan.parse_filepath := fun _ => Ok ("M1", 2%Z, "goes17", sample.started);
     scan.build_local_path := fun local_directory filepath satellite =>
       local_directory +:+ "/" +:+ satellite +:+ "/" +:+ filepath;
     scan.os_path_exists := fun _ => have_local;
     scan.open_dataset := fun _ => Ok sample.raw;
     scan.download_scan := fun s3_bucket s3_key local_directory =>
       if download_ok then
         Ok (local_directory +:+ "/" +:+ s3_bucket +:+ "/" +:+ s3_key)
       else Raise (OSError "404 Not Found") |}.

(** A stand-in for [np.log] on [np.float64] in sample runs: its tangent
    at 1. *)
Definition tangent_log : LogOp float := {| flog := fun x => (x - 1)%float |}.

Definition later : datetime :=
  {| year := 2019; month := 10; day := 27;
     hour := 20; minute := 49; second := 27; microsecond := 500000 |}.

(** The scan [sample.fire_scan] with another band 1, and the same a minute
    later. *)
Definition fire_scan_other_band_1 : sample.toy_scan :=
  {| sample.toy_time := sample.started; sample.toy_region := "M1";
     sample.toy_satellite := "noaa-goes17";
     sample.toy_bands := fun name =>
       if decide (name = "band_1") then [[1; 1]; [1; 1]]%Q
       else sample.toy_bands sample.fire_scan name |}.

Definition fire_scan_later : sample.toy_scan :=
  {| sample.toy_time := later; sample.toy_region := "M1";
     sample.toy_satellite := "noaa-goes17";
     sample.toy_bands := sample.toy_bands sample.fire_scan |}.

(** A stand-in for [goes_level_1] whose groups all assemble. *)
#[export] Instance three_fires : goes_level_1.Interface Q := {
  goes_level_1.GoesScan := sample.toy_scan;
  goes_level_1.GoesBand := list (list Q);
  goes_level_1.group_filepaths_into_scans := map (fun f => [f]);
  goes_level_1.read_netcdfs := fun filepaths =>
    if decide (filepaths = ["fire.nc"]) then Ok sample.fire_scan
    else if decide (filepaths = ["later.nc"]) then Ok fire_scan_later
    else Ok fire_scan_other_band_1;
  goes_level_1.scan_time_utc := sample.toy_time;
  goes_level_1.region := sample.toy_region;
  goes_level_1.satellite := sample.toy_satellite;
  goes_level_1.rescale_to_2km := fun goes_scan => goes_scan;
  goes_level_1.getitem := sample.toy_bands;
  goes_level_1.brightness_temperature := fun band => band;
  goes_level_1.reflectance_factor := fun band => band
}.
End fixtures.

(** * Properties of [wildfire.goes.scan] *)

Section ScanFacts.
Context {F : Type} `{NumOps F} `{LogOp F}.
Implicit Types ds : gmap string (DataArray F).

Lemma getattr_Ok ds name a :
  scan.getattr ds name = Ok a ↔ ds !! name = Some a.
Proof.
  unfold scan.getattr. destruct (ds !! name); split; congruence.
Qed.

Lemma bind_Ok {A B : Type} (r : result A) (k : A → result B) b :
  r ≫= k = Ok b ↔ ∃ a, r = Ok a ∧ k a = Ok b.
Proof.
  destruct r as [a|e]; simpl; split.
  - eauto.
  - intros (a' & [= ->] & ?). done.
  - done.
  - intros (? & [=] & _).
Qed.

Lemma grid_map_compose {A B C : Type} (f : A → B) (g : B → C) rows :
  grid_map g (grid_map f rows) = grid_map (fun x => g (f x)) rows.
Proof.
  unfold grid_map. rewrite map_map. apply map_ext. intros row.
  apply map_map.
Qed.

Lemma pixel_grid_map {A B : Type} (f : A → B) rows i j :
  pixel (grid_map f rows) i j = f <$> pixel rows i j.
Proof.
  unfold pixel, grid_map. rewrite list_lookup_fmap.
  destruct (rows !! i) as [row|]; simpl; [|done].
  apply list_lookup_fmap.
Qed.

(** The reflectance step on a dataset that has the two variables it
    reads. *)
Lemma reflectance_factor_spec ds Rad kappa0 :
  ds !! "Rad" = Some Rad → ds !! "kappa0" = Some kappa0 →
  scan._calculate_reflectance_factor ds =
    Ok (<["reflectance_factor" := broadcast fmul Rad kappa0]> ds).
Proof.
  intros HRad Hk. unfold scan._calculate_reflectance_factor.
  rewrite (proj2 (getattr_Ok _ _ _) HRad). simpl.
  rewrite (proj2 (getattr_Ok _ _ _) Hk). reflexivity.
Qed.

(** The step fails exactly when one of the two variables is missing. *)
Lemma reflectance_factor_inv ds ds' :
  scan._calculate_reflectance_factor ds = Ok ds' →
  ∃ Rad kappa0,
    ds !! "Rad" = Some Rad ∧ ds !! "kappa0" = Some kappa0 ∧
    ds' = <["reflectance_factor" := broadcast fmul Rad kappa0]> ds.
Proof.
  unfold scan._calculate_reflectance_factor.
  intros (Rad & HRad & Hrest)%bind_Ok.
  apply bind_Ok in Hrest as (kappa0 & Hk & [= <-]).
  apply getattr_Ok in HRad, Hk. eauto.
Qed.

Lemma brightness_temperature_inv ds ds' :
  scan._calculate_brightness_temperature ds = Ok ds' →
  ∃ value, ds' = <["brightness_temperature" := value]> ds.
Proof.
  unfold scan._calculate_brightness_temperature.
  intros (fk2 & _ & H1)%bind_Ok.
  apply bind_Ok in H1 as (fk1 & _ & H1).
  apply bind_Ok in H1 as (Rad & _ & H1).
  apply bind_Ok in H1 as (bc1 & _ & H1).
  apply bind_Ok in H1 as (bc2 & _ & [= <-]).
  eauto.
Qed.
End ScanFacts.

(** C4.  For a dataset whose raw radiance is an image and whose calibration
    constants are scalars, [_calculate_brightness_temperature] succeeds and
    the variable it adds is the image in which every pixel is
    (planck_fk2 / log((planck_fk1 / raw_radiance) + 1) - planck_bc1)
    / planck_bc2 of the pixel at the same place, with the operations of the
    element type (for the reals, [log] is the natural logarithm). *)
Theorem brightness_temperature_formula
    {F : Type} `{NumOps F} `{LogOp F} (ds : gmap string (DataArray F))
    (raw_radiance : list (list F))
    (planck_fk1 planck_fk2 planck_bc1 planck_bc2 : F) :
  ds !! "Rad" = Some (Grid raw_radiance) →
  ds !! "planck_fk1" = Some (Scalar planck_fk1) →
  ds !! "planck_fk2" = Some (Scalar planck_fk2) →
  ds !! "planck_bc1" = Some (Scalar planck_bc1) →
  ds !! "planck_bc2" = Some (Scalar planck_bc2) →
  ∃ image,
    scan._calculate_brightness_temperature ds =
      Ok (<["brightness_temperature" := Grid image]> ds) ∧
    image =
      grid_map
        (fun r =>
           fdiv (fsub (fdiv planck_fk2 (flog (fadd (fdiv planck_fk1 r) fone)))
                   planck_bc1)
             planck_bc2)
        raw_radiance ∧
    ∀ i j,
      pixel image i j =
        planck_temperature planck_fk1 planck_fk2 planck_bc1 planck_bc2
          <$> pixel raw_radiance i j.
Proof.
  intros HRad Hfk1 Hfk2 Hbc1 Hbc2.
  unfold scan._calculate_brightness_temperature.
  rewrite (proj2 (getattr_Ok _ _ _) Hfk2); simpl.
  rewrite (proj2 (getattr_Ok _ _ _) Hfk1); simpl.
  rewrite (proj2 (getattr_Ok _ _ _) HRad); simpl.
  rewrite (proj2 (getattr_Ok _ _ _) Hbc1); simpl.
  rewrite (proj2 (getattr_Ok _ _ _) Hbc2); simpl.
  rewrite !grid_map_compose.
  eexists; split; [reflexivity|]. split; [reflexivity|].
  intros i j. apply pixel_grid_map.
Qed.

Lemma brightness_temperature_formula_witness :
  ∃ image,
    scan._calculate_brightness_temperature sample.raw =
      Ok (<["brightness_temperature" := Grid image]> sample.raw) ∧
    image =
      grid_map (fun r => (3700 / ln (200000 / r + 1) - 1 / 2) / 1)%R
        [[2; 4]; [5; 8]]%R.
Proof.
  destruct (brightness_temperature_formula sample.raw [[2; 4]; [5; 8]]%R
              200000%R 3700%R (1 / 2)%R 1%R)
    as (image & Hrun & Himage & _); try reflexivity.
  exists image. split; [exact Hrun | exact Himage].
Defined.

(** * Binary64 multiplication

    Rounding of a product in the normal range, from the reference
    implementation [SpecFloat.binary_round_aux] that [FloatAxioms.mul_spec]
    gives as the specification of the primitive multiplication. *)

Section Rounding.
#[local] Open Scope Z_scope.

Lemma digits2_pos_bounds m :
  (2 ^ (Zpos (digits2_pos m) - 1) ≤ Zpos m < 2 ^ Zpos (digits2_pos m))%Z.
Proof.
  induction m as [m IH|m IH|]; simpl digits2_pos.
  - rewrite Pos2Z.inj_succ.
    replace (Z.succ (Z.pos (digits2_pos m)) - 1)%Z
      with (Z.succ (Z.pos (digits2_pos m) - 1)) by lia.
    rewrite !Z.pow_succ_r by lia. lia.
  - rewrite Pos2Z.inj_succ.
    replace (Z.succ (Z.pos (digits2_pos m)) - 1)%Z
      with (Z.succ (Z.pos (digits2_pos m) - 1)) by lia.
    rewrite !Z.pow_succ_r by lia. lia.
  - simpl. lia.
Qed.

Lemma digits2_pos_unique m d :
  (2 ^ (d - 1) ≤ Zpos m < 2 ^ d)%Z → Zpos (digits2_pos m) = d.
Proof.
  intros [Hlo Hhi]. pose proof (digits2_pos_bounds m) as [Hlo' Hhi'].
  assert (0 < d)%Z.
  { destruct (Z.ltb_spec 0 d); [done|].
    destruct (Z.eq_dec d 0) as [->|]; [simpl in Hhi; lia|].
    rewrite Z.pow_neg_r in Hhi by lia. lia. }
  destruct (Z.lt_trichotomy (Zpos (digits2_pos m)) d) as [Hlt|[Heq|Hgt]];
    [|done|].
  - assert (2 ^ Zpos (digits2_pos m) ≤ 2 ^ (d - 1))%Z
      by (apply Z.pow_le_mono_r; lia). lia.
  - assert (2 ^ d ≤ 2 ^ (Zpos (digits2_pos m) - 1))%Z
      by (apply Z.pow_le_mono_r; lia). lia.
Qed.

Lemma shr_1_inv m0 P mrs :
  (0 < P)%Z → shr_inv m0 P mrs → shr_inv m0 (2 * P) (shr_1 mrs).
Proof.
  intros HP [Hm H]. destruct mrs as [m r s].
  cbn [shr_m shr_r shr_s] in *.
  destruct m as [|[p|p|]|p]; try lia;
    destruct r, s; unfold shr_inv; cbn [shr_1 orb shr_m shr_r shr_s] in *;
    (split; [lia|]); lia.
Qed.

Lemma iter_pos_shr_1_inv p : ∀ m0 P mrs,
  (0 < P)%Z → shr_inv m0 P mrs →
  shr_inv m0 (2 ^ Zpos p * P) (SpecFloat.iter_pos shr_1 p mrs).
Proof.
  induction p as [p IH|p IH|]; intros m0 P mrs HP Hinv; simpl SpecFloat.iter_pos.
  - replace (2 ^ Z.pos p~1 * P)%Z with (2 ^ Z.pos p * (2 ^ Z.pos p * (2 * P)))%Z.
    + apply IH; [|apply IH; [lia|by apply shr_1_inv]].
      assert (0 < 2 ^ Z.pos p)%Z by (apply Z.pow_pos_nonneg; lia). lia.
    + rewrite (Pos2Z.inj_xI p), Z.pow_add_r, Z.pow_mul_r by lia.
      change (2 ^ 2)%Z with 4%Z. change (2 ^ 1)%Z with 2%Z.
      replace 4%Z with (2 * 2)%Z by done.
      rewrite Z.pow_mul_l. lia.
  - replace (2 ^ Z.pos p~0 * P)%Z with (2 ^ Z.pos p * (2 ^ Z.pos p * P))%Z.
    + apply IH; [|by apply IH].
      assert (0 < 2 ^ Z.pos p)%Z by (apply Z.pow_pos_nonneg; lia). lia.
    + rewrite (Pos2Z.inj_xO p), Z.pow_mul_r by lia.
      change (2 ^ 2)%Z with 4%Z. replace 4%Z with (2 * 2)%Z by done.
      rewrite Z.pow_mul_l. lia.
  - change (2 ^ 1)%Z with 2%Z. by apply shr_1_inv.
Qed.

Lemma shr_fexp_eq m e l :
  shr_fexp prec emax (Zpos m) e l =
    shr (shr_record_of_loc (Zpos m) l) e
      (Z.max (Zpos (digits2_pos m) + e - 53) (-1074) - e).
Proof. reflexivity. Qed.

Lemma shr_nonpos mrs e n : (n ≤ 0)%Z → shr mrs e n = (mrs, e).
Proof. destruct n; [done|lia|done]. Qed.

Lemma shr_pos m n :
  0 < n →
  ∃ mrs, shr_inv (Zpos m) (2 ^ n) mrs ∧
         ∀ e, shr (Build_shr_record (Zpos m) false false) e n = (mrs, e + n).
Proof.
  destruct n as [|p|p]; [lia| |lia]. intros _.
  eexists; split; [|reflexivity].
  replace (2 ^ Z.pos p) with (2 ^ Z.pos p * 1) by lia.
  apply iter_pos_shr_1_inv; [lia|].
  split; cbn [shr_m shr_r shr_s]; lia.
Qed.

(** Rounding to nearest stays within half a unit of the shifted-out part. *)
Lemma round_nearest_even_inv m0 P mrs :
  (0 < P)%Z → shr_inv m0 P mrs →
  let m1 := round_nearest_even (shr_m mrs) (loc_of_shr_record mrs) in
  (shr_m mrs ≤ m1 ≤ shr_m mrs + 1)%Z ∧
  (2 * Z.abs (m1 * P - m0) ≤ P)%Z.
Proof.
  intros HP [Hm H]. destruct mrs as [m [] []];
    cbn [shr_m shr_r shr_s loc_of_shr_record round_nearest_even] in *.
  - split; lia.
  - destruct (Z.even m); split; lia.
  - split; lia.
  - split; lia.
Qed.

Lemma shr_inv_quotient m0 P mrs :
  (0 < P)%Z → shr_inv m0 P mrs →
  (shr_m mrs * P ≤ m0 < (shr_m mrs + 1) * P)%Z.
Proof.
  intros HP [Hm H]. destruct mrs as [m [] []];
    cbn [shr_m shr_r shr_s] in *; lia.
Qed.

Lemma round_nearest_even_exact m0 P mrs q :
  0 < P → shr_inv m0 P mrs → m0 = q * P →
  round_nearest_even (shr_m mrs) (loc_of_shr_record mrs) = q.
Proof.
  intros HP Hinv ->. pose proof (shr_inv_quotient _ _ _ HP Hinv) as Hq.
  assert (shr_m mrs = q) as <- by nia.
  destruct Hinv as [_ H]. destruct mrs as [m [] []];
    cbn [shr_m shr_r shr_s loc_of_shr_record round_nearest_even] in *;
    try done; lia.
Qed.

(** The rounding step of a product [m * 2^e] in the normal range: the
    mantissa [m2] and the exponent shift [k] of the result depend on [m]
    alone, [m2 * 2^k] is within relative distance [2^-53] of [m], and the
    result is [m2 * 2^(e+k)] unless that overflows. *)
Lemma binary_round_aux_normal m :
  ∃ m2 k,
    0 ≤ k ∧
    2 ^ 53 * Z.abs (Zpos m2 * 2 ^ k - Zpos m) ≤ Zpos m ∧
    (53 ≤ Zpos (digits2_pos m) → Zpos (digits2_pos m2) = 53) ∧
    Zpos (digits2_pos m) - 53 ≤ k ∧
    (∀ m', 53 ≤ Zpos (digits2_pos m) →
           Zpos m = Zpos m' * 2 ^ (Zpos (digits2_pos m) - 53) →
           m2 = m' ∧ k = Zpos (digits2_pos m) - 53) ∧
    ∀ sx e,
      -1074 ≤ Zpos (digits2_pos m) + e - 53 →
      binary_round_aux prec emax sx (Zpos m) e loc_Exact =
        if e + k <=? emax - prec then S754_finite sx m2 (e + k)
        else S754_infinity sx.
Proof.
  pose proof (digits2_pos_bounds m) as [Hlo Hhi].
  set (d := Zpos (digits2_pos m)) in *.
  destruct (Z.le_gt_cases (d - 53) 0) as [Hn|Hn].
  - exists m, 0. split; [lia|]. split; [simpl (2 ^ 0); lia|].
    split; [fold d; lia|]. split; [lia|]. split.
    { intros m' Hd Hm. assert (d - 53 = 0) as Hz by lia. rewrite Hz in *.
      simpl (2 ^ 0) in Hm. split; lia. }
    intros sx e Hnormal. unfold binary_round_aux. rewrite shr_fexp_eq.
    fold d. rewrite Z.max_l by lia.
    rewrite shr_nonpos by lia.
    cbn [shr_record_of_loc shr_m loc_of_shr_record round_nearest_even].
    rewrite shr_fexp_eq. fold d. rewrite Z.max_l by lia.
    rewrite shr_nonpos by lia. cbn [shr_record_of_loc shr_m].
    by rewrite Z.add_0_r.
  - destruct (shr_pos m (d - 53) Hn) as (mrs & Hinv & Hshr).
    set (n := d - 53) in *.
    assert (HP : 0 < 2 ^ n) by (apply Z.pow_pos_nonneg; lia).
    pose proof (round_nearest_even_inv _ _ _ HP Hinv) as [Hm1 Herr].
    pose proof (shr_inv_quotient _ _ _ HP Hinv) as Hq.
    set (m1 := round_nearest_even (shr_m mrs) (loc_of_shr_record mrs)) in *.
    assert (Hd : 2 ^ (d - 1) = 2 ^ 52 * 2 ^ n).
    { rewrite <- Z.pow_add_r by lia. f_equal. lia. }
    assert (Hd' : 2 ^ d = 2 ^ 53 * 2 ^ n).
    { rewrite <- Z.pow_add_r by lia. f_equal. lia. }
    assert (Hm' : 2 ^ 52 ≤ shr_m mrs < 2 ^ 53) by nia.
    assert (Hm1' : 2 ^ 52 ≤ m1 ≤ 2 ^ 53) by lia.
    destruct (Z.eq_dec m1 (2 ^ 53)) as [Heq|Hne].
    + exists (2 ^ 52)%positive, (n + 1). split; [lia|].
      split; [|split; [|split; [|split]]].
      * rewrite Z.pow_add_r by lia. change (2 ^ 1) with 2.
        change (Zpos (2 ^ 52)) with (2 ^ 52).
        rewrite Heq in Herr.
        replace (2 ^ 52 * (2 ^ n * 2)) with (2 ^ 53 * 2 ^ n)
          by (change (2 ^ 53) with (2 ^ 52 * 2); lia).
        change (2 ^ 53) with (2 * 2 ^ 52) at 1. nia.
      * done.
      * lia.
      * intros m' _ Hm.
        pose proof (round_nearest_even_exact _ _ _ _ HP Hinv Hm) as Hex.
        fold m1 in Hex. lia.
      * intros sx e Hnormal. unfold binary_round_aux. rewrite shr_fexp_eq.
        fold d. rewrite Z.max_l by lia. cbn [shr_record_of_loc].
        replace (d + e - 53 - e) with n by lia. rewrite Hshr.
        fold m1. rewrite Heq.
        replace (shr_fexp prec emax (2 ^ 53) (e + n) loc_Exact)
          with (Build_shr_record (2 ^ 52) false false, e + n + 1).
        2:{ change (2 ^ 53) with (Zpos (2 ^ 53)). rewrite shr_fexp_eq.
            change (Zpos (digits2_pos (2 ^ 53))) with 54.
            rewrite Z.max_l by lia.
            replace (54 + (e + n) - 53 - (e + n)) with 1 by lia.
            reflexivity. }
        cbn [shr_m]. change (2 ^ 52) with (Zpos (2 ^ 52)).
        by rewrite Z.add_assoc.
    + destruct m1 as [|q|q] eqn:Hq1; [lia| |lia].
      assert (Hdq : Zpos (digits2_pos q) = 53).
      { apply digits2_pos_unique. change (2 ^ (53 - 1)) with (2 ^ 52). lia. }
      exists q, n. split; [lia|]. split; [|split; [|split; [|split]]].
      * change (2 ^ 53) with (2 * 2 ^ 52). nia.
      * done.
      * lia.
      * intros m' _ Hm.
        pose proof (round_nearest_even_exact _ _ _ _ HP Hinv Hm) as Hex.
        fold m1 in Hex. split; [|done]. rewrite Hq1 in Hex. by injection Hex.
      * intros sx e Hnormal. unfold binary_round_aux. rewrite shr_fexp_eq.
        fold d. rewrite Z.max_l by lia. cbn [shr_record_of_loc].
        replace (d + e - 53 - e) with n by lia. rewrite Hshr.
        fold m1. rewrite Hq1. rewrite shr_fexp_eq, Hdq.
        rewrite Z.max_l by lia.
        rewrite shr_nonpos by lia. by cbn [shr_record_of_loc shr_m].
Qed.
End Rounding.

Section RoundingError.
#[local] Open Scope R_scope.

Lemma powerRZ_IZR k : (0 ≤ k)%Z → powerRZ 2 k = IZR (2 ^ k).
Proof.
  intros Hk. destruct k as [|p|p]; [done| |lia].
  unfold powerRZ. rewrite pow_IZR. by rewrite positive_nat_Z.
Qed.

Lemma powerRZ_2_pos k : 0 < powerRZ 2 k.
Proof. apply powerRZ_lt. lra. Qed.

Lemma powerRZ_2_le a b : (a ≤ b)%Z → powerRZ 2 a <= powerRZ 2 b.
Proof.
  intros Hab. replace b with (a + (b - a))%Z by lia.
  rewrite powerRZ_add by lra. rewrite (powerRZ_IZR (b - a)) by lia.
  assert (1 <= IZR (2 ^ (b - a))).
  { apply IZR_le. assert (0 < 2 ^ (b - a))%Z by (apply Z.pow_pos_nonneg; lia).
    lia. }
  pose proof (powerRZ_2_pos a). nra.
Qed.

Lemma IZR_cond_Zopp s z :
  IZR (cond_Zopp s z) = (if s then -1 else 1) * IZR z.
Proof. destruct s; simpl; [rewrite opp_IZR|]; lra. Qed.

Lemma smallest_normal_powerRZ : smallest_normal = powerRZ 2 (-1022).
Proof. reflexivity. Qed.

Lemma Rabs_sign (s : bool) x : Rabs ((if s then -1 else 1) * x) = Rabs x.
Proof.
  destruct s; [|f_equal; lra].
  replace (-1 * x) with (- x) by lra. apply Rabs_Ropp.
Qed.

Lemma sign_xorb (a b : bool) :
  (if xorb a b then -1 else 1) =
    (if a then -1 else 1) * (if b then -1 else 1).
Proof. destruct a, b; simpl; lra. Qed.

Lemma SF2R_mul_error sx mx ex sy my ey :
  SF_finite (SF64mul (S754_finite sx mx ex) (S754_finite sy my ey)) = true →
  smallest_normal <=
    Rabs (SF2R (S754_finite sx mx ex) * SF2R (S754_finite sy my ey)) →
  Rabs (SF2R (SF64mul (S754_finite sx mx ex) (S754_finite sy my ey)) -
        SF2R (S754_finite sx mx ex) * SF2R (S754_finite sy my ey)) <=
    unit_roundoff *
    Rabs (SF2R (S754_finite sx mx ex) * SF2R (S754_finite sy my ey)).
Proof.
  intros Hfin Hnormal.
  assert (Hexact :
    SF2R (S754_finite sx mx ex) * SF2R (S754_finite sy my ey) =
      (if xorb sx sy then -1 else 1) *
      (IZR (Zpos (mx * my)) * powerRZ 2 (ex + ey))).
  { unfold SF2R. rewrite !IZR_cond_Zopp, sign_xorb, Pos2Z.inj_mul, mult_IZR.
    rewrite powerRZ_add by lra. ring. }
  rewrite Hexact in *. rewrite Rabs_sign in Hnormal.
  pose proof (digits2_pos_bounds (mx * my)) as [Hlo Hhi].
  pose proof (powerRZ_2_pos (ex + ey)) as Hpe.
  assert (Hm0 : 0 < IZR (Zpos (mx * my))) by (apply IZR_lt; lia).
  rewrite Rabs_pos_eq in Hnormal by nra.
  assert (Hdigits : (-1074 ≤ Zpos (digits2_pos (mx * my)) + (ex + ey) - 53)%Z).
  { destruct (Z.le_gt_cases (-1021)
                (Zpos (digits2_pos (mx * my)) + (ex + ey))) as [|Hsmall];
      [lia|exfalso].
    apply IZR_lt in Hhi. rewrite <- powerRZ_IZR in Hhi by lia.
    assert (powerRZ 2 (Zpos (digits2_pos (mx * my)) + (ex + ey)) <=
            powerRZ 2 (-1022)) by (apply powerRZ_2_le; lia).
    rewrite powerRZ_add in H by lra.
    rewrite smallest_normal_powerRZ in Hnormal. nra. }
  unfold SF64mul, SFmul in *.
  destruct (binary_round_aux_normal (mx * my))
    as (m2 & k & Hk & Herr & _ & _ & _ & Hres).
  rewrite (Hres _ _ Hdigits) in *.
  destruct (ex + ey + k <=? emax - prec)%Z; [|done].
  unfold SF2R. rewrite IZR_cond_Zopp.
  rewrite Rabs_sign.
  replace ((if xorb sx sy then -1 else 1) * IZR (Z.pos m2) *
             powerRZ 2 (ex + ey + k) -
           (if xorb sx sy then -1 else 1) *
           (IZR (Z.pos (mx * my)) * powerRZ 2 (ex + ey)))
    with ((if xorb sx sy then -1 else 1) *
          ((IZR (Z.pos m2 * 2 ^ k - Z.pos (mx * my))) *
           powerRZ 2 (ex + ey))).
  2:{ rewrite minus_IZR, mult_IZR, <- powerRZ_IZR by lia.
      rewrite (powerRZ_add 2 (ex + ey) k) by lra. ring. }
  rewrite Rabs_sign, !Rabs_mult, <- abs_IZR.
  rewrite (Rabs_pos_eq (powerRZ 2 (ex + ey))) by lra.
  rewrite (Rabs_pos_eq (IZR (Z.pos (mx * my)))) by lra.
  rewrite <- Rmult_assoc. apply Rmult_le_compat_r; [lra|].
  apply IZR_le in Herr. rewrite mult_IZR in Herr.
  assert (HU : IZR (2 ^ 53) = 2 ^ 53) by (by rewrite pow_IZR).
  rewrite HU in Herr. unfold unit_roundoff.
  assert (0 < 2 ^ 53) by (apply pow_lt; lra).
  apply (Rmult_le_reg_l (2 ^ 53)); [done|].
  rewrite <- Rmult_assoc, Rinv_r, Rmult_1_l by lra. exact Herr.
Qed.

Lemma float64_mul_error x y :
  float64_finite x = true → float64_finite y = true →
  float64_finite (x * y) = true →
  no_underflow (float64_real x * float64_real y) →
  Rabs (float64_real (x * y) - float64_real x * float64_real y) <=
    unit_roundoff * Rabs (float64_real x * float64_real y).
Proof.
  unfold float64_finite, float64_real. rewrite mul_spec.
  destruct (Prim2SF x) as [sx|sx| |sx mx ex]; try done;
    destruct (Prim2SF y) as [sy|sy| |sy my ey]; try done; intros _ _ Hfin Hrange.
  1-3: cbn [SF64mul SFmul SF2R]; rewrite ?Rmult_0_l, ?Rmult_0_r, Rminus_0_r,
         Rabs_R0; lra.
  destruct Hrange as [Hzero|Hrange]; [|by apply SF2R_mul_error].
  exfalso. unfold SF2R in Hzero. rewrite !IZR_cond_Zopp in Hzero.
  pose proof (powerRZ_2_pos ex). pose proof (powerRZ_2_pos ey).
  assert (0 < IZR (Zpos mx)) by (apply IZR_lt; lia).
  assert (0 < IZR (Zpos my)) by (apply IZR_lt; lia).
  assert (0 < IZR (Zpos mx) * powerRZ 2 ex) by (by apply Rmult_lt_0_compat).
  assert (0 < IZR (Zpos my) * powerRZ 2 ey) by (by apply Rmult_lt_0_compat).
  destruct sx, sy; cbv iota in Hzero; nra.
Qed.
End RoundingError.

Section Scaling.
#[local] Open Scope R_scope.

(** Checks, on the binary representations, that a number or a product is
    in the normal range. *)
Lemma normal_product_check x y sx mx ex sy my ey :
  Prim2SF x = S754_finite sx mx ex → Prim2SF y = S754_finite sy my ey →
  (-1021 <=? Zpos (digits2_pos (mx * my)) + (ex + ey))%Z = true →
  smallest_normal <= Rabs (float64_real x * float64_real y).
Proof.
  intros Hx Hy Hd%Z.leb_le. unfold float64_real. rewrite Hx, Hy.
  unfold SF2R. rewrite !IZR_cond_Zopp.
  replace ((if sx then -1 else 1) * IZR (Z.pos mx) * powerRZ 2 ex *
           ((if sy then -1 else 1) * IZR (Z.pos my) * powerRZ 2 ey))
    with ((if xorb sx sy then -1 else 1) *
          (IZR (Zpos (mx * my)) * powerRZ 2 (ex + ey))).
  2:{ rewrite sign_xorb, Pos2Z.inj_mul, mult_IZR, powerRZ_add by lra. ring. }
  rewrite Rabs_sign.
  pose proof (digits2_pos_bounds (mx * my)) as [Hlo _].
  pose proof (powerRZ_2_pos (ex + ey)).
  assert (0 < IZR (Zpos (mx * my))) by (apply IZR_lt; lia).
  rewrite Rabs_pos_eq by nra.
  apply IZR_le in Hlo. rewrite <- powerRZ_IZR in Hlo by lia.
  rewrite smallest_normal_powerRZ.
  apply Rle_trans
    with (powerRZ 2 (Z.pos (digits2_pos (mx * my)) - 1) * powerRZ 2 (ex + ey)).
  - rewrite <- powerRZ_add by lra. apply powerRZ_2_le. lia.
  - apply Rmult_le_compat_r; lra.
Qed.

Lemma no_underflow_check x y sx mx ex sy my ey :
  Prim2SF x = S754_finite sx mx ex → Prim2SF y = S754_finite sy my ey →
  (-1021 <=? Zpos (digits2_pos (mx * my)) + (ex + ey))%Z = true →
  no_underflow (float64_real x * float64_real y).
Proof. intros. right. by eapply normal_product_check. Qed.

Lemma normal_check x s m e :
  Prim2SF x = S754_finite s m e →
  (-1021 <=? Zpos (digits2_pos m) + e)%Z = true →
  smallest_normal <= Rabs (float64_real x).
Proof.
  intros Hx Hd.
  pose proof (normal_product_check x 1%float s m e false (2 ^ 52) (-52) Hx
                eq_refl) as H.
  replace (float64_real 1) with 1 in H.
  2:{ unfold float64_real. change (Prim2SF 1) with (S754_finite false (2 ^ 52) (-52)).
      unfold SF2R. cbn [cond_Zopp].
      change (powerRZ 2 (-52)) with (/ 2 ^ 52).
      change (Zpos (2 ^ 52)) with (2 ^ Z.of_nat 52)%Z.
      rewrite <- pow_IZR. symmetry. apply Rinv_r, pow_nonzero. lra. }
  rewrite Rmult_1_r in H. apply H.
  apply Z.leb_le in Hd. apply Z.leb_le.
  pose proof (digits2_pos_bounds m) as [Hlo Hhi].
  rewrite (digits2_pos_unique (m * 2 ^ 52) (Zpos (digits2_pos m) + 52)); [lia|].
  rewrite Pos2Z.inj_mul. change (Zpos (2 ^ 52)) with (2 ^ 52)%Z.
  replace (Z.pos (digits2_pos m) + 52 - 1)%Z
    with (Z.pos (digits2_pos m) - 1 + 52)%Z by lia.
  rewrite !Z.pow_add_r by lia. nia.
Qed.

Lemma float64_finite_mul_inv x y :
  float64_finite (x * y) = true →
  float64_finite x = true ∧ float64_finite y = true.
Proof.
  unfold float64_finite. rewrite mul_spec.
  by destruct (Prim2SF x) as [[]|[]| |[] ? ?], (Prim2SF y) as [[]|[]| |[] ? ?].
Qed.

(** Scaling the radiance before the multiplication by kappa0, against scaling
    the product afterwards, in binary64: the two agree up to three
    roundings. *)
Lemma float64_scaling_error k r kappa0 :
  float64_finite k = true → float64_finite r = true →
  float64_finite kappa0 = true →
  float64_finite (k * r) = true → float64_finite (r * kappa0) = true →
  float64_finite (k * r * kappa0) = true →
  no_underflow (float64_real k * float64_real r) →
  no_underflow (float64_real (k * r) * float64_real kappa0) →
  no_underflow (float64_real r * float64_real kappa0) →
  Rabs (float64_real (k * r * kappa0) -
        float64_real k * float64_real (r * kappa0)) <=
    (3 * unit_roundoff + unit_roundoff ^ 2) *
    Rabs (float64_real k * float64_real r * float64_real kappa0).
Proof.
  intros Hk Hr Hκ Hkr Hrκ Hkrκ U1 U2 U3.
  pose proof (float64_mul_error k r Hk Hr Hkr U1) as E1.
  pose proof (float64_mul_error (k * r) kappa0 Hkr Hκ Hkrκ U2) as E2.
  pose proof (float64_mul_error r kappa0 Hr Hκ Hrκ U3) as E3.
  set (a := float64_real k) in *. set (b := float64_real r) in *.
  set (c := float64_real kappa0) in *.
  set (p := float64_real (k * r)) in *.
  set (o := float64_real (r * kappa0)) in *.
  set (os := float64_real (k * r * kappa0)) in *.
  assert (Hu : 0 < unit_roundoff).
  { unfold unit_roundoff. apply Rinv_0_lt_compat, pow_lt. lra. }
  set (u := unit_roundoff) in *.
  rewrite !Rabs_mult in *.
  pose proof (Rabs_pos a). pose proof (Rabs_pos b). pose proof (Rabs_pos c).
  assert (Hp : Rabs p <= Rabs a * Rabs b + u * (Rabs a * Rabs b)).
  { replace p with ((p - a * b) + a * b) at 1 by ring.
    eapply Rle_trans; [apply Rabs_triang|]. rewrite Rabs_mult. lra. }
  replace (os - a * o)
    with ((os - p * c) + ((p - a * b) * c + a * (b * c - o))) by ring.
  eapply Rle_trans; [apply Rabs_triang|].
  eapply Rle_trans;
    [apply Rplus_le_compat_l, Rabs_triang|].
  rewrite !Rabs_mult, (Rabs_minus_sym (b * c) o).
  assert (T1 : u * (Rabs p * Rabs c) <=
               u * ((Rabs a * Rabs b + u * (Rabs a * Rabs b)) * Rabs c)).
  { apply Rmult_le_compat_l; [lra|]. apply Rmult_le_compat_r; lra. }
  assert (T2 : Rabs (p - a * b) * Rabs c <= u * (Rabs a * Rabs b) * Rabs c).
  { apply Rmult_le_compat_r; lra. }
  assert (T3 : Rabs a * Rabs (o - b * c) <= Rabs a * (u * (Rabs b * Rabs c))).
  { apply Rmult_le_compat_l; lra. }
  nra.
Qed.
End Scaling.

Section Doubling.
#[local] Open Scope R_scope.

Lemma SF2R_finite_abs s m e :
  Rabs (SF2R (S754_finite s m e)) = IZR (Zpos m) * powerRZ 2 e.
Proof.
  unfold SF2R. rewrite IZR_cond_Zopp, Rmult_assoc, Rabs_sign.
  pose proof (powerRZ_2_pos e).
  assert (0 < IZR (Zpos m)) by (apply IZR_lt; lia).
  apply Rabs_pos_eq. nra.
Qed.

(** A magnitude [m * 2^e] of at least the smallest normal number has
    [digits m + e] above [-1022]. *)
Lemma normal_range_digits m e :
  smallest_normal <= IZR (Zpos m) * powerRZ 2 e →
  (-1021 ≤ Zpos (digits2_pos m) + e)%Z.
Proof.
  intros Hnormal.
  destruct (Z.le_gt_cases (-1021) (Zpos (digits2_pos m) + e)) as [|Hsmall];
    [done|exfalso].
  pose proof (digits2_pos_bounds m) as [_ Hhi].
  apply IZR_lt in Hhi. rewrite <- powerRZ_IZR in Hhi by lia.
  assert (powerRZ 2 (Zpos (digits2_pos m) + e) <= powerRZ 2 (-1022))
    by (apply powerRZ_2_le; lia).
  rewrite powerRZ_add in H by lra.
  rewrite smallest_normal_powerRZ in Hnormal.
  pose proof (powerRZ_2_pos e). nra.
Qed.

(** A normal number in canonical form has a 53-bit mantissa. *)
Lemma normal_mantissa s m e :
  valid_binary (S754_finite s m e) = true →
  smallest_normal <= Rabs (SF2R (S754_finite s m e)) →
  Zpos (digits2_pos m) = 53%Z ∧ (-1074 ≤ e)%Z.
Proof.
  rewrite SF2R_finite_abs. intros Hvalid Hnormal%normal_range_digits.
  unfold valid_binary, bounded, canonical_mantissa in Hvalid.
  apply andb_true_iff in Hvalid as [Hcanon%Z.eqb_eq _].
  change (fexp prec emax (Z.pos (digits2_pos m) + e))
    with (Z.max (Z.pos (digits2_pos m) + e - 53) (-1074)) in Hcanon.
  lia.
Qed.

(** Doubling a normal number is exact: the exponent goes up by one. *)
Lemma SF64mul_two s m e :
  Zpos (digits2_pos m) = 53%Z → (-1074 ≤ e)%Z →
  SF64mul (Prim2SF 2) (S754_finite s m e) =
    if (e + 1 <=? emax - prec)%Z then S754_finite s m (e + 1)
    else S754_infinity s.
Proof.
  intros Hd He.
  change (Prim2SF 2) with (S754_finite false (2 ^ 52) (-51)).
  unfold SF64mul, SFmul. cbn [xorb].
  pose proof (digits2_pos_bounds m) as [Hlo Hhi]. rewrite Hd in Hlo, Hhi.
  assert (Hd2 : Zpos (digits2_pos (2 ^ 52 * m)) = 105%Z).
  { apply digits2_pos_unique. rewrite Pos2Z.inj_mul.
    change (Zpos (2 ^ 52)) with (2 ^ 52)%Z.
    change (2 ^ (105 - 1))%Z with (2 ^ 52 * 2 ^ (53 - 1))%Z.
    change (2 ^ 105)%Z with (2 ^ 52 * 2 ^ 53)%Z. lia. }
  destruct (binary_round_aux_normal (2 ^ 52 * m))
    as (m2 & k & _ & _ & _ & _ & Hexact & Hres).
  rewrite Hd2 in Hexact, Hres.
  destruct (Hexact m) as [-> ->]; [lia| |].
  { rewrite Pos2Z.inj_mul. change (2 ^ (105 - 53))%Z with (Zpos (2 ^ 52)). lia. }
  rewrite Hres by lia.
  replace (-51 + e + (105 - 53))%Z with (e + 1)%Z by lia. done.
Qed.

(** Doubling commutes with the multiplication by kappa0 in binary64, as long
    as the operands are normal and the doubled radiance is finite. *)
Lemma float64_doubling_exact r kappa0 :
  smallest_normal <= Rabs (float64_real r) →
  smallest_normal <= Rabs (float64_real r * float64_real kappa0) →
  float64_finite (2 * r) = true →
  (2 * r * kappa0)%float = (2 * (r * kappa0))%float.
Proof.
  unfold float64_real, float64_finite. intros Hr Hrκ Hfin.
  assert (Hsmall : 0 < smallest_normal).
  { unfold smallest_normal. apply Rinv_0_lt_compat, pow_lt. lra. }
  pose proof (Prim2SF_valid r) as Hvalid.
  apply Prim2SF_inj. rewrite !mul_spec in *.
  destruct (Prim2SF r) as [sr|sr| |sr mr er];
    try (cbn [SF2R] in Hr; rewrite Rabs_R0 in Hr; lra).
  destruct (Prim2SF kappa0) as [sk|sk| |sk mk ek];
    try (cbn [SF2R] in Hrκ; rewrite Rmult_0_r, Rabs_R0 in Hrκ; lra).
  destruct (normal_mantissa _ _ _ Hvalid Hr) as [Hd He].
  rewrite (SF64mul_two sr mr er Hd He) in *.
  destruct (er + 1 <=? emax - prec)%Z; [clear Hfin|done].
  rewrite Rabs_mult, !SF2R_finite_abs in Hrκ.
  assert (Hrange : smallest_normal <=
                   IZR (Zpos (mr * mk)) * powerRZ 2 (er + ek)).
  { rewrite Pos2Z.inj_mul, mult_IZR, powerRZ_add by lra.
    replace (IZR (Z.pos mr) * IZR (Z.pos mk) * (powerRZ 2 er * powerRZ 2 ek))
      with (IZR (Z.pos mr) * powerRZ 2 er * (IZR (Z.pos mk) * powerRZ 2 ek))
      by ring. done. }
  apply normal_range_digits in Hrange.
  destruct (binary_round_aux_normal (mr * mk))
    as (m2 & k & Hk & _ & Hd2 & Hdk & _ & Hres).
  assert (Hdprod : (53 ≤ Zpos (digits2_pos (mr * mk)))%Z).
  { pose proof (digits2_pos_bounds mr) as [Hlo _]. rewrite Hd in Hlo.
    pose proof (digits2_pos_bounds (mr * mk)) as [_ Hhi].
    destruct (Z.le_gt_cases 53 (Zpos (digits2_pos (mr * mk)))); [done|].
    assert (2 ^ Zpos (digits2_pos (mr * mk)) ≤ 2 ^ 52)%Z
      by (apply Z.pow_le_mono_r; lia).
    change (2 ^ (53 - 1))%Z with (2 ^ 52)%Z in Hlo. nia. }
  unfold SF64mul at 1 3. unfold SFmul.
  rewrite !Hres by lia.
  replace (er + 1 + ek + k)%Z with (er + ek + k + 1)%Z by lia.
  destruct (er + ek + k <=? emax - prec)%Z eqn:Hle.
  - rewrite (SF64mul_two _ m2 (er + ek + k)) by lia. done.
  - apply Z.leb_gt in Hle.
    replace (er + ek + k + 1 <=? emax - prec)%Z with false
      by (symmetry; apply Z.leb_gt; lia).
    reflexivity.
Qed.
End Doubling.

(** A NaN operand gives NaN, and every comparison with NaN is false. *)
Section NaN.
Lemma Prim2SF_nan : Prim2SF nan = S754_nan.
Proof. reflexivity. Qed.

Lemma float64_mul_nan_l y : (nan * y)%float = nan.
Proof.
  apply Prim2SF_inj. rewrite mul_spec, Prim2SF_nan. by destruct (Prim2SF y).
Qed.

Lemma float64_div_nan_l y : (nan / y)%float = nan.
Proof.
  apply Prim2SF_inj. rewrite div_spec, Prim2SF_nan. by destruct (Prim2SF y).
Qed.

Lemma float64_div_nan_r x : (x / nan)%float = nan.
Proof.
  apply Prim2SF_inj. rewrite div_spec, Prim2SF_nan. by destruct (Prim2SF x).
Qed.

Lemma float64_add_nan_l y : (nan + y)%float = nan.
Proof.
  apply Prim2SF_inj. rewrite add_spec, Prim2SF_nan. by destruct (Prim2SF y).
Qed.

Lemma float64_sub_nan_l y : (nan - y)%float = nan.
Proof.
  apply Prim2SF_inj. rewrite sub_spec, Prim2SF_nan. by destruct (Prim2SF y).
Qed.

Lemma SFcompare_nan_l y : SFcompare S754_nan y = None.
Proof. by destruct y. Qed.

Lemma SFcompare_nan_r x : SFcompare x S754_nan = None.
Proof. by destruct x. Qed.
End NaN.

(** C5 as stated fails in [np.float64] arithmetic: for the one-pixel
    radiance 0.1 with kappa0 0.7 and the scale 3, the reflectance factor of
    the scaled radiance, (3 * 0.1) * 0.7, is above 3 times the reflectance
    factor of the radiance, 3 * (0.1 * 0.7): the two roundings differ. *)
Lemma float64_scaling_differs_by_rounding :
  ∃ out out_scaled : float,
    scan._calculate_reflectance_factor sample.raw_float64 =
      Ok (<["reflectance_factor" := Grid [[out]]]> sample.raw_float64) ∧
    scan._calculate_reflectance_factor
      (<["Rad" := broadcast fmul (Scalar 3%float) (Grid [[0.1%float]])]>
         sample.raw_float64) =
      Ok (<["reflectance_factor" := Grid [[out_scaled]]]>
            (<["Rad" := broadcast fmul (Scalar 3%float) (Grid [[0.1%float]])]>
               sample.raw_float64)) ∧
    PrimFloat.eqb out_scaled (3 * out)%float = false ∧
    PrimFloat.ltb (3 * out)%float out_scaled = true.
Proof.
  exists (0.1 * 0.7)%float, ((3 * 0.1) * 0.7)%float.
  split; [reflexivity|]. split; [reflexivity|].
  split; vm_compute; reflexivity.
Qed.

(** C5, amended.  For a dataset whose raw radiance is an image and whose
    [kappa0] is a scalar, the reflectance factor computed is
    raw_radiance * kappa0 pixel by pixel, in the arithmetic of the element
    type.  When that multiplication is associative (exact arithmetic, as over
    the real numbers), for every scalar [k] the reflectance factor computed
    from the radiance scaled by [k] is the reflectance factor of the unscaled
    radiance scaled by [k].  In [np.float64] the same holds up to rounding:
    at every pixel where the two results are finite and no product
    underflows, the result for the scaled radiance is within
    (3 u + u^2) * |k * raw_radiance * kappa0| of [k] times the result for the
    unscaled radiance, for the unit roundoff u = 2^-53; and it holds exactly
    for k = 2, when the radiance and its product with [kappa0] are normal
    and twice the radiance is finite. *)
Theorem reflectance_factor_linear :
  (∀ (F : Type) (ops : NumOps F) (ds : gmap string (DataArray F))
     (raw_radiance : list (list F)) (kappa0 : F),
     ds !! "Rad" = Some (Grid raw_radiance) →
     ds !! "kappa0" = Some (Scalar kappa0) →
     ∃ image,
       scan._calculate_reflectance_factor ds =
         Ok (<["reflectance_factor" := Grid image]> ds) ∧
       (∀ i j,
          pixel image i j =
            (fun r => fmul r kappa0) <$> pixel raw_radiance i j) ∧
       ((∀ a b c : F, fmul (fmul a b) c = fmul a (fmul b c)) →
        ∀ k : F,
          let scaled :=
            <["Rad" := broadcast fmul (Scalar k) (Grid raw_radiance)]> ds in
          scan._calculate_reflectance_factor scaled =
            Ok (<["reflectance_factor" :=
                    broadcast fmul (Scalar k) (Grid image)]> scaled))) ∧
  (∀ (ds : gmap string (DataArray float)) (raw_radiance : list (list float))
     (kappa0 k : float),
     ds !! "Rad" = Some (Grid raw_radiance) →
     ds !! "kappa0" = Some (Scalar kappa0) →
     let scaled :=
       <["Rad" := broadcast fmul (Scalar k) (Grid raw_radiance)]> ds in
     ∃ image image_scaled,
       scan._calculate_reflectance_factor ds =
         Ok (<["reflectance_factor" := Grid image]> ds) ∧
       scan._calculate_reflectance_factor scaled =
         Ok (<["reflectance_factor" := Grid image_scaled]> scaled) ∧
       ∀ i j r,
         pixel raw_radiance i j = Some r →
         ∃ out out_scaled,
           pixel image i j = Some out ∧
           pixel image_scaled i j = Some out_scaled ∧
           out = (r * kappa0)%float ∧
           out_scaled = (k * r * kappa0)%float ∧
           (float64_finite out = true → float64_finite out_scaled = true →
            no_underflow (float64_real k * float64_real r) →
            no_underflow (float64_real (k * r) * float64_real kappa0) →
            no_underflow (float64_real r * float64_real kappa0) →
            (Rabs (float64_real out_scaled -
                   float64_real k * float64_real out) <=
               (3 * unit_roundoff + unit_roundoff ^ 2) *
               Rabs (float64_real k * float64_real r * float64_real kappa0))%R) ∧
           (k = 2%float →
            (smallest_normal <= Rabs (float64_real r))%R →
            (smallest_normal <=
               Rabs (float64_real r * float64_real kappa0))%R →
            float64_finite (2 * r) = true →
            out_scaled = (2 * out)%float)).
Proof.
  split.
  - intros F ops ds raw_radiance kappa0 HRad Hk.
    exists (grid_map (fun r => fmul r kappa0) raw_radiance).
    split; [|split].
    + by rewrite (reflectance_factor_spec ds _ _ HRad Hk).
    + intros i j. apply pixel_grid_map.
    + intros Hassoc k scaled.
      rewrite (reflectance_factor_spec scaled
                 (broadcast fmul (Scalar k) (Grid raw_radiance))
                 (Scalar kappa0)).
      * simpl. rewrite !grid_map_compose. do 3 f_equal.
        unfold grid_map. apply map_ext. intros row. apply map_ext. intros r.
        apply Hassoc.
      * apply lookup_insert_eq.
      * unfold scaled. by rewrite lookup_insert_ne.
  - intros ds raw_radiance kappa0 k HRad Hk scaled.
    exists (grid_map (fun r => r * kappa0)%float raw_radiance),
           (grid_map (fun r => k * r * kappa0)%float raw_radiance).
    split; [|split].
    + by rewrite (reflectance_factor_spec ds _ _ HRad Hk).
    + rewrite (reflectance_factor_spec scaled
                 (broadcast fmul (Scalar k) (Grid raw_radiance))
                 (Scalar kappa0)).
      * simpl. by rewrite !grid_map_compose.
      * apply lookup_insert_eq.
      * unfold scaled. by rewrite lookup_insert_ne.
    + intros i j r Hr. exists (r * kappa0)%float, (k * r * kappa0)%float.
      rewrite !pixel_grid_map, Hr.
      split; [done|]. split; [done|]. split; [done|]. split; [done|]. split.
      * intros Hout Hscaled U1 U2 U3.
        destruct (float64_finite_mul_inv _ _ Hscaled) as [Hkr Hkappa].
        destruct (float64_finite_mul_inv _ _ Hkr) as [Hfk Hfr].
        by apply float64_scaling_error.
      * intros -> Hnormal Hproduct Hfinite. by apply float64_doubling_exact.
Qed.

Lemma reflectance_factor_linear_witness :
  (∃ image,
     scan._calculate_reflectance_factor sample.raw =
       Ok (<["reflectance_factor" := Grid image]> sample.raw) ∧
     scan._calculate_reflectance_factor
       (<["Rad" := Grid [[3 * 2; 3 * 4]; [3 * 5; 3 * 8]]%R]> sample.raw) =
     Ok (<["reflectance_factor" := Grid (grid_map (Rmult 3) image)]>
           (<["Rad" := Grid [[3 * 2; 3 * 4]; [3 * 5; 3 * 8]]%R]> sample.raw))) ∧
  (Rabs (float64_real (3 * 0.1 * 0.7) -
         float64_real 3 * float64_real (0.1 * 0.7)) <=
     (3 * unit_roundoff + unit_roundoff ^ 2) *
     Rabs (float64_real 3 * float64_real 0.1 * float64_real 0.7))%R ∧
  (2 * 0.1 * 0.7)%float = (2 * (0.1 * 0.7))%float.
Proof.
  destruct reflectance_factor_linear as [Hexact Hfloat64].
  split; [|split].
  - destruct (Hexact R _ sample.raw [[2; 4]; [5; 8]]%R (1 / 4)%R
                eq_refl eq_refl)
      as (image & Hrun & _ & Hscaled).
    exists image. split; [exact Hrun | exact (Hscaled Rmult_assoc 3%R)].
  - destruct (Hfloat64 sample.raw_float64 [[0.1%float]] 0.7%float 3%float
                eq_refl eq_refl)
      as (image & image_scaled & _ & _ & Hpixel).
    destruct (Hpixel 0%nat 0%nat 0.1%float eq_refl)
      as (out & out_scaled & _ & _ & -> & -> & Hclose & _).
    apply Hclose.
    + vm_compute; reflexivity.
    + vm_compute; reflexivity.
    + eapply no_underflow_check;
        [reflexivity|reflexivity|vm_compute; reflexivity].
    + eapply no_underflow_check;
        [reflexivity|reflexivity|vm_compute; reflexivity].
    + eapply no_underflow_check;
        [reflexivity|reflexivity|vm_compute; reflexivity].
  - destruct (Hfloat64 sample.raw_float64 [[0.1%float]] 0.7%float 2%float
                eq_refl eq_refl)
      as (image & image_scaled & _ & _ & Hpixel).
    destruct (Hpixel 0%nat 0%nat 0.1%float eq_refl)
      as (out & out_scaled & _ & _ & -> & Hscaled & _ & Hdouble).
    rewrite <- Hscaled. apply Hdouble.
    + reflexivity.
    + eapply normal_check; [reflexivity|vm_compute; reflexivity].
    + eapply normal_product_check;
        [reflexivity|reflexivity|vm_compute; reflexivity].
    + vm_compute; reflexivity.
Defined.

(** C3 as stated fails: the channel-2 band of the sample data is processed
    and has a brightness temperature next to its reflectance factor. *)
Lemma process_channel_2_has_brightness_temperature :
  scan.channel sample.band_2 = 2%Z ∧
  scan._process sample.band_2 sample.raw = Ok sample.processed ∧
  is_Some (sample.processed !! "reflectance_factor") ∧
  is_Some (sample.processed !! "brightness_temperature").
Proof.
  split; [reflexivity|]. split; [reflexivity|].
  split; eexists; reflexivity.
Qed.

(** C3, amended.  Every band the radiometric step processes gets both
    derived products, whatever its channel: a reflectance factor and a
    brightness temperature.  The channel decides only which of the two
    [plot] shows: the reflectance factor for channels 1 to 5, the brightness
    temperature for channels 7 to 16. *)
Theorem process_populates_both_products
    {F : Type} `{NumOps F} `{LogOp F} (self : scan.GoesScan F)
    (ds ds' : gmap string (DataArray F)) :
  scan._process self ds = Ok ds' →
  is_Some (ds' !! "reflectance_factor") ∧
  is_Some (ds' !! "brightness_temperature") ∧
  ∀ band : scan.GoesScan F,
    scan.dataset band = ds' →
    ((1 ≤ scan.channel band ≤ 5)%Z →
     ∃ axes, scan.plot band = Ok axes ∧
             ds' !! "reflectance_factor" = Some (scan.image axes)) ∧
    ((7 ≤ scan.channel band ≤ 16)%Z →
     ∃ axes, scan.plot band = Ok axes ∧
             ds' !! "brightness_temperature" = Some (scan.image axes)).
Proof.
  unfold scan._process. intros (ds1 & Hrf & Hrest)%bind_Ok.
  apply bind_Ok in Hrest as (ds2 & Hbt & [= <-]).
  apply reflectance_factor_inv in Hrf as (Rad & kappa0 & _ & _ & ->).
  apply brightness_temperature_inv in Hbt as (value & ->).
  assert (Hlookup_rf :
    (<["brightness_temperature" := value]>
       (<["reflectance_factor" := broadcast fmul Rad kappa0]> ds) : gmap _ _)
      !! "reflectance_factor" = Some (broadcast fmul Rad kappa0)).
  { rewrite lookup_insert_ne by done. apply lookup_insert_eq. }
  split; [by eexists|]. split; [eexists; apply lookup_insert_eq|].
  intros band Hds. unfold scan.plot, scan.in_range. rewrite Hds. split.
  - intros [Hlo Hhi].
    replace ((1 <=? scan.channel band)%Z && (scan.channel band <? 6)%Z)
      with true by (symmetry; apply andb_true_iff; lia).
    rewrite (proj2 (getattr_Ok _ _ _) Hlookup_rf). simpl. eauto.
  - intros [Hlo Hhi].
    replace ((1 <=? scan.channel band)%Z && (scan.channel band <? 6)%Z)
      with false by (symmetry; apply andb_false_iff; lia).
    rewrite (proj2 (getattr_Ok _ _ _)
               (lookup_insert_eq _ "brightness_temperature" value)).
    simpl. eexists; split; [reflexivity|]. apply lookup_insert_eq.
Qed.

Lemma process_populates_both_products_witness :
  is_Some (sample.processed !! "reflectance_factor") ∧
  is_Some (sample.processed !! "brightness_temperature").
Proof.
  destruct (process_populates_both_products sample.band_2 sample.raw
              sample.processed) as (Hrf & Hbt & _).
  - reflexivity.
  - split; [exact Hrf | exact Hbt].
Defined.

(** C10.  On every [GoesScan] object, [_to_2km_resolution] and
    [_filter_bad_pixels] raise [NotImplementedError]: neither returns. *)
Theorem unimplemented_hooks_raise {F : Type} (self : scan.GoesScan F) :
  scan._to_2km_resolution self = Raise NotImplementedError ∧
  scan._filter_bad_pixels self = Raise NotImplementedError.
Proof. split; reflexivity. Qed.

(** * Properties of the batch search *)

Section WildfireFacts.
Context {F : Type} {gl1 : goes_level_1.Interface F}
  {tests : threshold_model.PixelTests F}.
Import goes_level_1_wildfires.

Lemma emit_utcnow e w : utcnow (emit e w) = utcnow w.
Proof. reflexivity. Qed.

Lemma file_writes_emit_log level format args w :
  file_writes (emit (Log level format args) w) = file_writes w.
Proof.
  unfold file_writes, emit. simpl. rewrite omap_app. simpl.
  apply app_nil_r.
Qed.

Lemma file_writes_emit_write path content w :
  file_writes (emit (FileWrite path content) w) =
    file_writes w ++ [(path, content)].
Proof. unfold file_writes, emit. simpl. by rewrite omap_app. Qed.


(** A run of [parse_scan_for_wildfire], by the outcome of
    [read_netcdfs]. *)
Lemma parse_scan_for_wildfire_run filepaths w :
  parse_scan_for_wildfire filepaths w =
    match goes_level_1.read_netcdfs filepaths with
    | Ok goes_scan =>
        (Ok (if float_gt (ndarray_mean (predict_wildfires goes_scan)) 0
             then Some
               [("scan_time_utc",
                 strftime (goes_level_1.scan_time_utc goes_scan)
                   "%Y-%m-%dT%H:%M:%S%f");
                ("region", goes_level_1.region goes_scan);
                ("satellite", goes_level_1.satellite goes_scan)]
             else None), w)
    | Raise (ValueError msg) =>
        (Ok None,
         emit (Log WARNING
                 (newline +:+ "Skipping malformed goes_scan comprised of %s."
                  +:+ newline +:+ "Error: %s")
                 [ArgStrs filepaths; ArgExn (ValueError msg)]) w)
    | Raise e => (Raise e, w)
    end.
Proof.
  unfold parse_scan_for_wildfire, try_except_ValueError, lift,
    logger_warning, mbind, M_bind, mret, M_ret.
  destruct (goes_level_1.read_netcdfs filepaths) as [goes_scan|[]];
    try reflexivity.
  by destruct (float_gt _ _).
Qed.

Lemma count_true_le_size g : (count_true g ≤ ndarray_size g)%nat.
Proof. unfold count_true, ndarray_size. apply length_filter. Qed.

(** The mean of a boolean image is above zero exactly when the image has a
    true pixel. *)
Lemma float_gt_mean_iff g :
  float_gt (ndarray_mean g) 0 = true ↔ (0 < count_true g)%nat.
Proof.
  unfold ndarray_mean. pose proof (count_true_le_size g) as Hle.
  destruct (ndarray_size g) as [|n]; simpl.
  - split; [done | lia].
  - unfold Qcompare; simpl. rewrite Z.mul_1_r.
    destruct (count_true g) as [|c]; simpl; split; (done || lia).
Qed.

Lemma count_true_pos_iff_pixel g :
  (0 < count_true g)%nat ↔ ∃ i j, pixel g i j = Some true.
Proof.
  unfold count_true, pixel. split.
  - intros Hpos.
    destruct (filter (fun b => b = true) (concat g)) as [|b rest] eqn:Hf;
      [simpl in Hpos; lia|].
    assert (Hin : b ∈ filter (fun b => b = true) (concat g))
      by (rewrite Hf; left).
    apply list_elem_of_filter in Hin as [-> Hin].
    apply list_elem_of_In, in_concat in Hin as (row & Hg & Hrow).
    apply list_elem_of_In, list_elem_of_lookup in Hg as [i Hi].
    apply list_elem_of_In in Hrow.
    apply list_elem_of_lookup in Hrow as [j Hj].
    exists i, j. by rewrite Hi.
  - intros (i & j & Hij).
    destruct (g !! i) as [row|] eqn:Hi; [|done]. simpl in Hij.
    assert (Hin : true ∈ filter (fun b => b = true) (concat g)).
    { apply list_elem_of_filter. split; [done|].
      apply list_elem_of_In, in_concat. exists row.
      split; apply list_elem_of_In.
      - by apply list_elem_of_lookup_2 with i.
      - by apply list_elem_of_lookup_2 with j. }
    destruct (filter _ _); [by apply elem_of_nil in Hin | simpl; lia].
Qed.
End WildfireFacts.

Section WildfireRuns.
Context {F : Type} {gl1 : goes_level_1.Interface F}
  {tests : threshold_model.PixelTests F}.
Import goes_level_1_wildfires.

(** [WILDFIRE_FILENAME.format(...)] with the five keywords never raises. *)
Lemma wildfire_filename_format satellite region start end_ created :
  str_format WILDFIRE_FILENAME
    [("satellite", satellite); ("region", region); ("start", start);
     ("end", end_); ("created", created)] =
  Ok ("wildfires_" +:+ satellite +:+ "_" +:+ region +:+ "_s" +:+ start +:+
      "_e" +:+ end_ +:+ "_c" +:+ created +:+ ".json").
Proof. reflexivity. Qed.

Lemma find_wildfires_run filepaths pbs w :
  find_wildfires filepaths pbs w =
    let scan_filepaths :=
      goes_level_1.group_filepaths_into_scans filepaths in
    let w1 := emit (Log INFO "Grouping files into scans..." []) w in
    let w2 :=
      emit (Log INFO "Processing %d scans with %d workers..."
              [ArgInt (Z.of_nat (length scan_filepaths));
               ArgInt (cpu_count w)]) w1 in
    match multiprocessing.map_function parse_scan_for_wildfire
            scan_filepaths pbs w2 with
    | (Ok results, w3) =>
        (Ok (filter_None results),
         emit (Log INFO "Found %d wildfires."
                 [ArgInt (Z.of_nat (length (filter_None results)))]) w3)
    | (Raise e, w3) => (Raise e, w3)
    end.
Proof.
  unfold find_wildfires, logger_info, os_cpu_count, mbind, M_bind, mret,
    M_ret. simpl.
  by destruct (multiprocessing.map_function _ _ _ _) as [[results|e] w3].
Qed.

Lemma label_wildfires_run scan_filepaths persist_directory satellite region
    start end_ pbs w :
  label_wildfires scan_filepaths persist_directory satellite region start
    end_ pbs w =
    match multiprocessing.map_function parse_scan_for_wildfire
            scan_filepaths pbs w with
    | (Ok results, w1) =>
        let wildfires := filter_None results in
        let w2 :=
          emit (Log INFO "Found %d wildfires."
                  [ArgInt (Z.of_nat (length wildfires))]) w1 in
        let wildfires_filepath :=
          os_path_join persist_directory
            ("wildfires_" +:+ satellite +:+ "_" +:+ region +:+
             "_s" +:+ strftime start "%Y-%m-%dT%H:%M:%S" +:+
             "_e" +:+ strftime end_ "%Y-%m-%dT%H:%M:%S" +:+
             "_c" +:+ strftime (utcnow w1) "%Y-%m-%dT%H:%M:%S" +:+
             ".json") in
        if (0 <? length wildfires)%nat then
          match open_error w1 wildfires_filepath with
          | Some e =>
              (Raise e,
               emit (Log INFO "Persisting wildfires to %s"
                       [ArgStr wildfires_filepath]) w2)
          | None =>
              (Ok wildfires,
               emit (FileWrite wildfires_filepath
                       (json_of_indexed (enumerate wildfires)))
                 (emit (Log INFO "Persisting wildfires to %s"
                          [ArgStr wildfires_filepath]) w2))
          end
        else (Ok wildfires, emit (Log INFO "No wildfires found..." []) w2)
    | (Raise e, w1) => (Raise e, w1)
    end.
Proof.
  unfold label_wildfires, mbind, M_bind at 1.
  destruct (multiprocessing.map_function _ _ _ _) as [[results|e] w1];
    [|reflexivity].
  unfold logger_info, datetime_utcnow, json_dump_to, lift, mbind, M_bind,
    mret, M_ret. cbv zeta.
  destruct (0 <? length (filter_None results))%nat; [|reflexivity].
  rewrite wildfire_filename_format. cbn [emit open_error].
  by destruct (open_error w1 _).
Qed.

Lemma warnings_emit_other e w :
  (∀ format args, e ≠ Log WARNING format args) →
  warnings (emit e w) = warnings w.
Proof.
  intros Hne. unfold warnings, emit. simpl. rewrite omap_app. simpl.
  destruct e as [[] format args|]; simpl; try apply app_nil_r.
  by destruct (Hne format args).
Qed.

(** What a run of [parse_scan_for_wildfire] does to the world: it reads no
    clock, writes no file and keeps the warnings already logged. *)
Lemma parse_scan_for_wildfire_world filepaths w :
  let w' := (parse_scan_for_wildfire filepaths w).2 in
  utcnow w' = utcnow w ∧ file_writes w' = file_writes w ∧
  warnings w ⊆ warnings w'.
Proof.
  rewrite parse_scan_for_wildfire_run.
  destruct (goes_level_1.read_netcdfs filepaths) as [goes_scan|[]]; simpl;
    try done.
  split; [done|]. split; [apply file_writes_emit_log|].
  unfold warnings, emit. simpl. rewrite omap_app.
  intros x Hx. apply elem_of_app. by left.
Qed.

Lemma map_function_world scan_filepaths pbs w :
  let w' :=
    (multiprocessing.map_function parse_scan_for_wildfire scan_filepaths
       pbs w).2 in
  utcnow w' = utcnow w ∧ file_writes w' = file_writes w ∧
  warnings w ⊆ warnings w'.
Proof.
  revert w. induction scan_filepaths as [|g rest IH]; intros w; simpl.
  { done. }
  unfold mbind, M_bind.
  pose proof (parse_scan_for_wildfire_world g w) as (Hnow & Hfiles & Hwarn).
  destruct (parse_scan_for_wildfire g w) as [[r|e] w1]; simpl in *;
    [|done].
  specialize (IH w1) as (Hnow' & Hfiles' & Hwarn').
  destruct (multiprocessing.map_function _ rest pbs w1) as [[rs|e] w2];
    simpl in *.
  - unfold mret, M_ret. simpl.
    split; [congruence|]. split; [congruence|]. set_solver.
  - split; [congruence|]. split; [congruence|]. set_solver.
Qed.


(** A batch in which every group assembles or fails with [ValueError]:
    [map_function] returns one result per group, the one the group yields
    by itself in any world, and every failing group is logged. *)
Lemma map_function_handled scan_filepaths :
  Forall (fun g => ∀ e, goes_level_1.read_netcdfs g = Raise e →
                        is_ValueError e = true) scan_filepaths →
  ∃ results,
    Forall2 (fun g r =>
               (∀ w, (parse_scan_for_wildfire g w).1 = Ok r) ∧
               (∀ e, goes_level_1.read_netcdfs g = Raise e → r = None))
      scan_filepaths results ∧
    ∀ pbs w, ∃ w',
      multiprocessing.map_function parse_scan_for_wildfire scan_filepaths
        pbs w = (Ok results, w') ∧
      ∀ g e, g ∈ scan_filepaths → goes_level_1.read_netcdfs g = Raise e →
        ∃ format, (format, [ArgStrs g; ArgExn e]) ∈ warnings w'.
Proof.
  induction 1 as [|g rest Hg _ (results & Hresults & Hrun)].
  { exists []. split; [constructor|]. intros pbs w. exists w.
    split; [reflexivity|]. intros g e Hin. by apply elem_of_nil in Hin. }
  assert (∃ r,
    (∀ w, (parse_scan_for_wildfire g w).1 = Ok r) ∧
    (∀ e, goes_level_1.read_netcdfs g = Raise e → r = None) ∧
    (∀ e w, goes_level_1.read_netcdfs g = Raise e →
       ∃ format,
         (format, [ArgStrs g; ArgExn e])
           ∈ warnings (parse_scan_for_wildfire g w).2))
    as (r & Hr & Hnone & Hlogged).
  { destruct (goes_level_1.read_netcdfs g) as [goes_scan|e] eqn:Hread.
    - eexists. split; [|split].
      + intros w. rewrite parse_scan_for_wildfire_run, Hread. reflexivity.
      + done.
      + done.
    - specialize (Hg e eq_refl). destruct e; try done.
      exists None. split; [|split].
      + intros w. by rewrite parse_scan_for_wildfire_run, Hread.
      + done.
      + intros e w [= <-]. rewrite parse_scan_for_wildfire_run, Hread.
        eexists. unfold warnings, emit. simpl. rewrite omap_app.
        apply elem_of_app. right. simpl. left. }
  exists (r :: results). split; [by constructor|].
  intros pbs w. simpl. unfold mbind, M_bind.
  pose proof (Hr w) as Hfst.
  destruct (parse_scan_for_wildfire g w) as [r0 w1] eqn:Hparse.
  simpl in Hfst. subst r0.
  destruct (Hrun pbs w1) as (w2 & Hrun2 & Hrest). rewrite Hrun2.
  exists w2. split; [reflexivity|].
  intros g' e [->|Hin]%elem_of_cons Hread.
  - destruct (Hlogged e w Hread) as [format Hformat]. exists format.
    rewrite Hparse in Hformat. simpl in Hformat.
    pose proof (map_function_world rest pbs w1) as (_ & _ & Hsub).
    rewrite Hrun2 in Hsub. simpl in Hsub. by apply Hsub.
  - by apply Hrest.
Qed.

End WildfireRuns.

(** C1.  For a group that [read_netcdfs] assembles into a scan,
    [parse_scan_for_wildfire] returns a record exactly when the mean of the
    prediction image is above zero, which is exactly when the image has a
    true pixel; the record has the keys scan_time_utc (the scan time
    formatted with %Y-%m-%dT%H:%M:%S%f), region and satellite, in this
    order and no others; an image without a true pixel gives [None]. *)
Theorem parse_scan_record_iff_positive
    {F : Type} {gl1 : goes_level_1.Interface F}
    {tests : threshold_model.PixelTests F}
    (filepaths : list string) (goes_scan : goes_level_1.GoesScan) (w : World) :
  goes_level_1.read_netcdfs filepaths = Ok goes_scan →
  let grid := goes_level_1_wildfires.predict_wildfires goes_scan in
  let record :=
    [("scan_time_utc",
      strftime (goes_level_1.scan_time_utc goes_scan) "%Y-%m-%dT%H:%M:%S%f");
     ("region", goes_level_1.region goes_scan);
     ("satellite", goes_level_1.satellite goes_scan)] in
  (float_gt (ndarray_mean grid) 0 = true ↔ ∃ i j, pixel grid i j = Some true) ∧
  (float_gt (ndarray_mean grid) 0 = true →
   goes_level_1_wildfires.parse_scan_for_wildfire filepaths w =
     (Ok (Some record), w)) ∧
  (float_gt (ndarray_mean grid) 0 = false →
   goes_level_1_wildfires.parse_scan_for_wildfire filepaths w = (Ok None, w)) ∧
  (count_true grid = 0%nat →
   goes_level_1_wildfires.parse_scan_for_wildfire filepaths w = (Ok None, w)) ∧
  record.*1 = ["scan_time_utc"; "region"; "satellite"].
Proof.
  intros Hread grid record.
  assert (Hrun :
    goes_level_1_wildfires.parse_scan_for_wildfire filepaths w =
      (Ok (if float_gt (ndarray_mean grid) 0 then Some record else None), w)).
  { by rewrite parse_scan_for_wildfire_run, Hread. }
  split; [|split; [|split; [|split]]].
  - rewrite float_gt_mean_iff. apply count_true_pos_iff_pixel.
  - intros Hgt. by rewrite Hrun, Hgt.
  - intros Hgt. by rewrite Hrun, Hgt.
  - intros Hzero. rewrite Hrun.
    destruct (float_gt (ndarray_mean grid) 0) eqn:Hgt; [|done].
    apply float_gt_mean_iff in Hgt. lia.
  - reflexivity.
Qed.

Lemma parse_scan_record_iff_positive_witness :
  goes_level_1_wildfires.parse_scan_for_wildfire
    (gl1 := sample.toy_goes_level_1) (tests := sample.toy_pixel_tests)
    ["fire.nc"] sample.world =
    (Ok (Some sample.fire_record), sample.world) ∧
  goes_level_1_wildfires.parse_scan_for_wildfire
    (gl1 := sample.toy_goes_level_1) (tests := sample.toy_pixel_tests)
    ["calm.nc"] sample.world =
    (Ok None, sample.world).
Proof.
  split.
  - apply (parse_scan_record_iff_positive
             (gl1 := sample.toy_goes_level_1)
             (tests := sample.toy_pixel_tests)
             ["fire.nc"] sample.fire_scan sample.world);
      reflexivity.
  - apply (parse_scan_record_iff_positive
             (gl1 := sample.toy_goes_level_1)
             (tests := sample.toy_pixel_tests)
             ["calm.nc"] sample.calm_scan sample.world);
      reflexivity.
Defined.






(** * Properties of the threshold decision *)

Lemma lookup_row_zip {A : Type} (op : A → A → A) (r1 r2 : list A) j :
  row_zip op r1 r2 !! j =
    match r1 !! j, r2 !! j with
    | Some x, Some y => Some (op x y)
    | _, _ => None
    end.
Proof.
  revert r2 j. induction r1 as [|x r1 IH]; intros [|y r2] [|j]; simpl;
    try done; try apply IH.
  all: by destruct (r1 !! j).
Qed.

Lemma pixel_grid_zip {A : Type} (op : A → A → A) (g1 g2 : list (list A)) i j :
  pixel (grid_zip op g1 g2) i j =
    match pixel g1 i j, pixel g2 i j with
    | Some x, Some y => Some (op x y)
    | _, _ => None
    end.
Proof.
  unfold pixel. revert g2 i.
  induction g1 as [|r1 g1 IH]; intros [|r2 g2] [|i]; simpl; try done;
    try apply IH; try apply lookup_row_zip.
  - by destruct (r1 !! j).
  - by destruct (g1 !! i ≫= _).
Qed.

(** The decision at one pixel of masks that all have this pixel. *)
Lemma pixel_predict (is_hot is_cloud is_night is_water : list (list bool))
    i j hot cloud water :
  pixel is_hot i j = Some hot → pixel is_cloud i j = Some cloud →
  pixel is_water i j = Some water →
  pixel (threshold_model.predict is_hot is_cloud is_night is_water) i j =
    Some (hot && negb cloud && negb water).
Proof.
  intros Hhot Hcloud Hwater. unfold threshold_model.predict.
  rewrite !pixel_grid_zip, !pixel_grid_map, Hhot, Hcloud, Hwater.
  reflexivity.
Qed.

(** C6.  At every pixel, and so at every pixel where [is_hot] is true, with
    the same night mask on both sides: if the masks [is_cloud'] and
    [is_water'] are true wherever [is_cloud] and [is_water] are, a prediction
    that is false with [is_cloud] and [is_water] is false with [is_cloud'] and
    [is_water'] too; a pixel where the cloud mask or the water mask is true is
    predicted false; and the prediction is the per-pixel decision, whatever
    the night mask says. *)
Theorem predict_monotone_in_disqualifiers
    (is_hot is_night is_cloud is_cloud' is_water is_water' : list (list bool))
    (i j : nat) (hot cloud cloud' water water' : bool) :
  pixel is_hot i j = Some hot →
  pixel is_cloud i j = Some cloud → pixel is_cloud' i j = Some cloud' →
  pixel is_water i j = Some water → pixel is_water' i j = Some water' →
  (cloud = true → cloud' = true) → (water = true → water' = true) →
  (pixel (threshold_model.predict is_hot is_cloud is_night is_water) i j
     = Some false →
   pixel (threshold_model.predict is_hot is_cloud' is_night is_water') i j
     = Some false) ∧
  (cloud = true ∨ water = true →
   pixel (threshold_model.predict is_hot is_cloud is_night is_water) i j
     = Some false) ∧
  ∀ night,
    pixel (threshold_model.predict is_hot is_cloud is_night is_water) i j =
      Some (threshold_model.predict_pixel hot cloud night water).
Proof.
  intros Hhot Hcloud Hcloud' Hwater Hwater' Hc Hw.
  rewrite (pixel_predict _ _ _ _ i j hot cloud water) by done.
  rewrite (pixel_predict _ _ _ _ i j hot cloud' water') by done.
  unfold threshold_model.predict_pixel.
  destruct hot, cloud, cloud', water, water'; simpl; intuition congruence.
Qed.

Lemma predict_monotone_in_disqualifiers_witness :
  pixel (threshold_model.predict [[true; true]] [[false; false]]
           [[false; true]] [[false; false]]) 0 1 = Some true ∧
  pixel (threshold_model.predict [[true; true]] [[false; true]]
           [[false; true]] [[false; false]]) 0 1 = Some false ∧
  pixel (threshold_model.predict [[true; true]] [[false; true]]
           [[false; true]] [[false; true]]) 0 1 = Some false.
Proof.
  split; [reflexivity|].
  pose proof (predict_monotone_in_disqualifiers
                [[true; true]] [[false; true]] [[false; true]] [[false; true]]
                [[false; false]] [[false; true]] 0 1 true true true false true
                eq_refl eq_refl eq_refl eq_refl eq_refl
                (fun _ => eq_refl) (fun _ => eq_refl))
    as (Hmono & Hdisq & _).
  split; [apply Hdisq; by left | apply Hmono, Hdisq; by left].
Defined.

(** * Invalid radiance values *)

Lemma np_compare_nan op x :
  np_compare op nan x = false ∧ np_compare op x nan = false.
Proof.
  destruct op; unfold np_compare;
    rewrite ?FloatAxioms.ltb_spec, ?FloatAxioms.leb_spec,
      ?FloatAxioms.eqb_spec, Prim2SF_nan;
    unfold SFltb, SFleb, SFeqb;
    by rewrite ?SFcompare_nan_l, ?SFcompare_nan_r.
Qed.

(** The brightness temperature of a missing radiance is missing, for every
    logarithm that maps NaN to NaN (as [np.log] does). *)
Lemma planck_temperature_nan (log : LogOp float)
    (planck_fk1 planck_fk2 planck_bc1 planck_bc2 : float) :
  flog nan = nan →
  planck_temperature planck_fk1 planck_fk2 planck_bc1 planck_bc2 nan = nan.
Proof.
  intros Hlog. unfold planck_temperature. cbn [fdiv fsub fadd fone float64_NumOps].
  by rewrite float64_div_nan_r, float64_add_nan_l, Hlog, float64_div_nan_r,
    float64_sub_nan_l, float64_div_nan_l.
Qed.

(** A radiance of zero has a brightness temperature that is a number, for
    every logarithm that maps +infinity to +infinity (as [np.log] does):
    with the calibration constants of the sample data it is -0.5. *)
Lemma planck_temperature_of_zero_radiance (log : LogOp float) :
  flog infinity = infinity →
  planck_temperature 200000%float 3700%float 0.5%float 1%float 0%float =
    (-0.5)%float.
Proof.
  intros Hlog. unfold planck_temperature. cbn [fdiv fsub fadd fone float64_NumOps].
  change (200000 / 0 + 1)%float with infinity. rewrite Hlog. reflexivity.
Qed.

(** C7 as stated fails: for the sample radiance with a zero, a negative, a
    missing and a saturated value and kappa0 10, the reflectance factor is
    computed without an exception, but only the missing value comes out as
    NaN: the zero stays 0, the negative value becomes -15 and the saturated
    one overflows to +infinity. *)
Lemma invalid_radiance_gives_numbers :
  scan._calculate_reflectance_factor sample.invalid_float64 =
    Ok (<["reflectance_factor" := Grid [[0; -15]; [nan; infinity]]%float]>
          sample.invalid_float64) ∧
  PrimFloat.is_nan 0 = false ∧
  PrimFloat.is_nan (-15) = false ∧
  PrimFloat.is_nan infinity = false.
Proof. split; [reflexivity|]. by vm_compute. Qed.

(** C7, amended.  For every [np.float64] dataset that has the raw variables
    (radiance image, scalar constants), whatever the values, and every
    [np.log], both conversion formulas return without an exception.  A
    missing (NaN) radiance gives a NaN reflectance factor, and a NaN
    brightness temperature when the logarithm maps NaN to NaN; other invalid
    radiances (zero, negative, saturated) are computed with like any number.
    Every comparison [<], [<=], [>], [>=], [==] with a NaN operand is false,
    and a pixel whose hot test is such a comparison is predicted false,
    whatever the other masks are. *)
Theorem invalid_radiance_does_not_raise
    (log : LogOp float) (ds : gmap string (DataArray float))
    (raw_radiance : list (list float))
    (kappa0 planck_fk1 planck_fk2 planck_bc1 planck_bc2 : float) :
  ds !! "Rad" = Some (Grid raw_radiance) →
  ds !! "kappa0" = Some (Scalar kappa0) →
  ds !! "planck_fk1" = Some (Scalar planck_fk1) →
  ds !! "planck_fk2" = Some (Scalar planck_fk2) →
  ds !! "planck_bc1" = Some (Scalar planck_bc1) →
  ds !! "planck_bc2" = Some (Scalar planck_bc2) →
  ∃ reflectance temperature,
    scan._calculate_reflectance_factor ds =
      Ok (<["reflectance_factor" := Grid reflectance]> ds) ∧
    scan._calculate_brightness_temperature ds =
      Ok (<["brightness_temperature" := Grid temperature]> ds) ∧
    (∀ i j r,
       pixel raw_radiance i j = Some r →
       pixel reflectance i j = Some (r * kappa0)%float ∧
       pixel temperature i j =
         Some (planck_temperature planck_fk1 planck_fk2 planck_bc1
                 planck_bc2 r)) ∧
    (∀ i j,
       pixel raw_radiance i j = Some nan →
       pixel reflectance i j = Some nan ∧
       (flog nan = nan → pixel temperature i j = Some nan)) ∧
    (∀ op x, np_compare op nan x = false ∧ np_compare op x nan = false) ∧
    (∀ op x is_cloud is_night is_water,
       threshold_model.predict_pixel (np_compare op nan x)
         is_cloud is_night is_water = false ∧
       threshold_model.predict_pixel (np_compare op x nan)
         is_cloud is_night is_water = false).
Proof.
  intros HRad Hk Hfk1 Hfk2 Hbc1 Hbc2.
  exists (grid_map (fun r => r * kappa0)%float raw_radiance),
         (grid_map (planck_temperature planck_fk1 planck_fk2 planck_bc1
                      planck_bc2) raw_radiance).
  split; [by rewrite (reflectance_factor_spec ds _ _ HRad Hk)|].
  split.
  { unfold scan._calculate_brightness_temperature.
    rewrite (proj2 (getattr_Ok _ _ _) Hfk2); simpl.
    rewrite (proj2 (getattr_Ok _ _ _) Hfk1); simpl.
    rewrite (proj2 (getattr_Ok _ _ _) HRad); simpl.
    rewrite (proj2 (getattr_Ok _ _ _) Hbc1); simpl.
    rewrite (proj2 (getattr_Ok _ _ _) Hbc2); simpl.
    by rewrite !grid_map_compose. }
  split; [|split; [|split]].
  - intros i j r Hr. by rewrite !pixel_grid_map, Hr.
  - intros i j Hr. rewrite !pixel_grid_map, Hr.
    cbn [fmap option_fmap option_map].
    split; [by rewrite float64_mul_nan_l|].
    intros Hlog. by rewrite planck_temperature_nan.
  - apply np_compare_nan.
  - intros op x is_cloud is_night is_water.
    destruct (np_compare_nan op x) as [-> ->]. done.
Qed.

Lemma invalid_radiance_does_not_raise_witness :
  ∃ reflectance temperature,
    scan._calculate_reflectance_factor sample.invalid_float64 =
      Ok (<["reflectance_factor" := Grid reflectance]>
            sample.invalid_float64) ∧
    @scan._calculate_brightness_temperature float _ fixtures.tangent_log
      sample.invalid_float64 =
      Ok (<["brightness_temperature" := Grid temperature]>
            sample.invalid_float64) ∧
    pixel reflectance 1 0 = Some nan ∧
    pixel temperature 1 0 = Some nan ∧
    pixel reflectance 0 1 = Some (-15)%float.
Proof.
  destruct (invalid_radiance_does_not_raise fixtures.tangent_log
              sample.invalid_float64 [[0; -1.5]; [nan; 1e308]]%float
              10%float 200000%float 3700%float 0.5%float 1%float
              eq_refl eq_refl eq_refl eq_refl eq_refl eq_refl)
    as (reflectance & temperature & Hrf & Hbt & Hpixel & Hnan & _).
  exists reflectance, temperature.
  split; [exact Hrf|]. split; [exact Hbt|].
  destruct (Hnan 1%nat 0%nat eq_refl) as [Hrf_nan Hbt_nan].
  split; [exact Hrf_nan|]. split; [exact (Hbt_nan eq_refl)|].
  exact (proj1 (Hpixel 0%nat 1%nat (-1.5)%float eq_refl)).
Defined.

(** * The brightness temperature over the real numbers *)

(** Over the reals, for a positive radiance and calibration constants with
    [planck_fk1] positive and [planck_fk2], [planck_bc2] not zero, the Planck
    function gives back the radiance from its brightness temperature. *)
Lemma planck_radiance_of_temperature
    (planck_fk1 planck_fk2 planck_bc1 planck_bc2 raw_radiance : R) :
  (0 < raw_radiance)%R → (0 < planck_fk1)%R →
  planck_fk2 ≠ 0%R → planck_bc2 ≠ 0%R →
  planck_radiance planck_fk1 planck_fk2 planck_bc1 planck_bc2
    (planck_temperature planck_fk1 planck_fk2 planck_bc1 planck_bc2
       raw_radiance) = raw_radiance.
Proof.
  intros Hrad Hfk1 Hfk2 Hbc2.
  unfold planck_radiance, planck_temperature. simpl.
  assert (Hratio : (0 < planck_fk1 / raw_radiance)%R)
    by (apply Rdiv_lt_0_compat; assumption).
  set (L := ln (planck_fk1 / raw_radiance + 1)).
  assert (HL : (0 < L)%R).
  { unfold L. rewrite <- ln_1. apply ln_increasing; lra. }
  replace (planck_bc1 + planck_bc2 * ((planck_fk2 / L - planck_bc1) / planck_bc2))%R
    with (planck_fk2 / L)%R by (field; split; lra).
  replace (planck_fk2 / (planck_fk2 / L))%R with L by (field; split; lra).
  unfold L. rewrite exp_ln by lra.
  field. split; lra.
Qed.

(** * Further properties of [wildfire.goes.scan] *)

Section ProcessFacts.
Context {F : Type} `{NumOps F} `{LogOp F}.
Implicit Types ds : gmap string (DataArray F).

Lemma getattr_Raise ds name e :
  scan.getattr ds name = Raise e ↔ ds !! name = None ∧ e = AttributeError name.
Proof.
  unfold scan.getattr. destruct (ds !! name); split.
  - done.
  - by intros [? _].
  - by intros [= <-].
  - by intros [_ ->].
Qed.

(** The brightness-temperature step on a dataset that has the five
    variables it reads. *)
Lemma brightness_temperature_spec ds Rad fk1 fk2 bc1 bc2 :
  ds !! "Rad" = Some Rad → ds !! "planck_fk1" = Some fk1 →
  ds !! "planck_fk2" = Some fk2 → ds !! "planck_bc1" = Some bc1 →
  ds !! "planck_bc2" = Some bc2 →
  scan._calculate_brightness_temperature ds =
    Ok (<["brightness_temperature" :=
            brightness_temperature_of fk1 fk2 bc1 bc2 Rad]> ds).
Proof.
  intros HRad Hfk1 Hfk2 Hbc1 Hbc2.
  unfold scan._calculate_brightness_temperature.
  rewrite (proj2 (getattr_Ok _ _ _) Hfk2); simpl.
  rewrite (proj2 (getattr_Ok _ _ _) Hfk1); simpl.
  rewrite (proj2 (getattr_Ok _ _ _) HRad); simpl.
  rewrite (proj2 (getattr_Ok _ _ _) Hbc1); simpl.
  rewrite (proj2 (getattr_Ok _ _ _) Hbc2); simpl.
  reflexivity.
Qed.

(** A run of [_process] that returns: the six raw variables are there and
    the result is the dataset with the two products added. *)
Lemma process_Ok_iff (self : scan.GoesScan F) ds ds' :
  scan._process self ds = Ok ds' ↔
  ∃ Rad kappa0 fk1 fk2 bc1 bc2,
    ds !! "Rad" = Some Rad ∧ ds !! "kappa0" = Some kappa0 ∧
    ds !! "planck_fk1" = Some fk1 ∧ ds !! "planck_fk2" = Some fk2 ∧
    ds !! "planck_bc1" = Some bc1 ∧ ds !! "planck_bc2" = Some bc2 ∧
    ds' = <["brightness_temperature" :=
              brightness_temperature_of fk1 fk2 bc1 bc2 Rad]>
            (<["reflectance_factor" := broadcast fmul Rad kappa0]> ds).
Proof.
  unfold scan._process. split.
  - intros (ds1 & Hrf & Hrest)%bind_Ok.
    apply bind_Ok in Hrest as (ds2 & Hbt & [= <-]).
    apply reflectance_factor_inv in Hrf as (Rad & kappa0 & HRad & Hk & ->).
    unfold scan._calculate_brightness_temperature in Hbt.
    apply bind_Ok in Hbt as (fk2 & Hfk2%getattr_Ok & Hbt).
    apply bind_Ok in Hbt as (fk1 & Hfk1%getattr_Ok & Hbt).
    apply bind_Ok in Hbt as (Rad' & HRad'%getattr_Ok & Hbt).
    apply bind_Ok in Hbt as (bc1 & Hbc1%getattr_Ok & Hbt).
    apply bind_Ok in Hbt as (bc2 & Hbc2%getattr_Ok & [= <-]).
    rewrite lookup_insert_ne in Hfk2, Hfk1, HRad', Hbc1, Hbc2 by done.
    assert (Rad' = Rad) as -> by congruence.
    exists Rad, kappa0, fk1, fk2, bc1, bc2. repeat (split; [done|]).
    reflexivity.
  - intros (Rad & kappa0 & fk1 & fk2 & bc1 & bc2 &
            HRad & Hk & Hfk1 & Hfk2 & Hbc1 & Hbc2 & ->).
    rewrite (reflectance_factor_spec ds _ _ HRad Hk). simpl.
    rewrite (brightness_temperature_spec _ Rad fk1 fk2 bc1 bc2)
      by (by rewrite lookup_insert_ne).
    reflexivity.
Qed.

(** A run of [_process] that raises: an [AttributeError] for a raw variable
    that the dataset lacks. *)
Lemma process_Raise (self : scan.GoesScan F) ds e :
  scan._process self ds = Raise e →
  ∃ name, name ∈ RAW_VARIABLES ∧ ds !! name = None ∧ e = AttributeError name.
Proof.
  unfold scan._process, scan._calculate_reflectance_factor,
    scan._calculate_brightness_temperature, RAW_VARIABLES.
  destruct (scan.getattr ds "Rad") as [Rad|e0] eqn:HRad; simpl.
  2: { intros [= <-]. apply getattr_Raise in HRad as [? ->].
       exists "Rad". set_solver. }
  destruct (scan.getattr ds "kappa0") as [kappa0|e0] eqn:Hk; simpl.
  2: { intros [= <-]. apply getattr_Raise in Hk as [? ->].
       exists "kappa0". set_solver. }
  unfold scan.assign, scan.getattr.
  rewrite !lookup_insert_ne by done.
  destruct (ds !! "planck_fk2") eqn:Hfk2; simpl.
  2: { intros [= <-]. exists "planck_fk2". set_solver. }
  destruct (ds !! "planck_fk1") eqn:Hfk1; simpl.
  2: { intros [= <-]. exists "planck_fk1". set_solver. }
  destruct (ds !! "Rad") eqn:HRad'; simpl.
  2: { intros [= <-]. exists "Rad". set_solver. }
  destruct (ds !! "planck_bc1") eqn:Hbc1; simpl.
  2: { intros [= <-]. exists "planck_bc1". set_solver. }
  destruct (ds !! "planck_bc2") eqn:Hbc2; simpl.
  2: { intros [= <-]. exists "planck_bc2". set_solver. }
  done.
Qed.
End ProcessFacts.

(** X1.  [_process] returns exactly when the dataset has the six raw
    variables Rad, kappa0, planck_fk1, planck_fk2, planck_bc1 and
    planck_bc2; otherwise it raises an [AttributeError] that names a raw
    variable the dataset lacks. *)
Theorem process_succeeds_iff_raw_variables
    {F : Type} `{NumOps F} `{LogOp F} (self : scan.GoesScan F)
    (ds : gmap string (DataArray F)) :
  ((∃ ds', scan._process self ds = Ok ds') ↔
   ∀ name, name ∈ RAW_VARIABLES → is_Some (ds !! name)) ∧
  ∀ e, scan._process self ds = Raise e →
       ∃ name, name ∈ RAW_VARIABLES ∧ ds !! name = None ∧
               e = AttributeError name.
Proof.
  split; [split|].
  - intros (ds' & Hrun). apply process_Ok_iff in Hrun
      as (Rad & kappa0 & fk1 & fk2 & bc1 & bc2 &
          HRad & Hk & Hfk1 & Hfk2 & Hbc1 & Hbc2 & _).
    unfold RAW_VARIABLES. intros name Hin.
    repeat (apply elem_of_cons in Hin as [->|Hin]; [by eexists|]).
    by apply elem_of_nil in Hin.
  - intros Hall.
    destruct (scan._process self ds) as [ds'|e] eqn:Hrun; [by eexists|].
    apply process_Raise in Hrun as (name & Hin & Hnone & _).
    destruct (Hall name Hin) as [a Ha]. congruence.
  - intros e. apply process_Raise.
Qed.

(** X2.  When [_process] returns, the reflectance factor it adds is
    Rad * kappa0 and the brightness temperature is the Planck expression of
    the raw Rad and constants of the input, and every other variable of the
    dataset is as it was. *)
Theorem process_adds_products_and_keeps_variables
    {F : Type} `{NumOps F} `{LogOp F} (self : scan.GoesScan F)
    (ds ds' : gmap string (DataArray F)) :
  scan._process self ds = Ok ds' →
  ∃ Rad kappa0 fk1 fk2 bc1 bc2,
    ds !! "Rad" = Some Rad ∧ ds !! "kappa0" = Some kappa0 ∧
    ds !! "planck_fk1" = Some fk1 ∧ ds !! "planck_fk2" = Some fk2 ∧
    ds !! "planck_bc1" = Some bc1 ∧ ds !! "planck_bc2" = Some bc2 ∧
    ds' !! "reflectance_factor" = Some (broadcast fmul Rad kappa0) ∧
    ds' !! "brightness_temperature" =
      Some (brightness_temperature_of fk1 fk2 bc1 bc2 Rad) ∧
    ∀ name, name ≠ "reflectance_factor" → name ≠ "brightness_temperature" →
            ds' !! name = ds !! name.
Proof.
  intros (Rad & kappa0 & fk1 & fk2 & bc1 & bc2 &
          HRad & Hk & Hfk1 & Hfk2 & Hbc1 & Hbc2 & ->)%process_Ok_iff.
  exists Rad, kappa0, fk1, fk2, bc1, bc2.
  repeat (split; [done|]). split; [|split].
  - rewrite lookup_insert_ne by done. apply lookup_insert_eq.
  - apply lookup_insert_eq.
  - intros name Hrf Hbt. by rewrite !lookup_insert_ne.
Qed.

Lemma process_adds_products_and_keeps_variables_witness :
  sample.processed !! "kappa0" = sample.raw !! "kappa0" ∧
  sample.processed !! "Rad" = sample.raw !! "Rad".
Proof.
  destruct (process_adds_products_and_keeps_variables sample.band_2
              sample.raw sample.processed eq_refl)
    as (_ & _ & _ & _ & _ & _ & _ & _ & _ & _ & _ & _ & _ & _ & Hkeep).
  split; apply Hkeep; done.
Defined.

(** X3.  [_process] is idempotent: processing a processed dataset again,
    for any band object, returns the same dataset. *)
Theorem process_idempotent
    {F : Type} `{NumOps F} `{LogOp F} (self self' : scan.GoesScan F)
    (ds ds' : gmap string (DataArray F)) :
  scan._process self ds = Ok ds' → scan._process self' ds' = Ok ds'.
Proof.
  intros (Rad & kappa0 & fk1 & fk2 & bc1 & bc2 &
          HRad & Hk & Hfk1 & Hfk2 & Hbc1 & Hbc2 & ->)%process_Ok_iff.
  apply process_Ok_iff. exists Rad, kappa0, fk1, fk2, bc1, bc2.
  rewrite !lookup_insert_ne by done. repeat (split; [done|]).
  set (rf := broadcast fmul Rad kappa0).
  set (bt := brightness_temperature_of fk1 fk2 bc1 bc2 Rad).
  set (ds' := <["brightness_temperature" := bt]>
                (<["reflectance_factor" := rf]> ds)).
  assert (Hrf : <["reflectance_factor" := rf]> ds' = ds').
  { apply insert_id. unfold ds'. rewrite lookup_insert_ne by done.
    apply lookup_insert_eq. }
  rewrite Hrf. symmetry. apply insert_id, lookup_insert_eq.
Qed.

Lemma process_idempotent_witness :
  scan._process sample.band_2 sample.processed = Ok sample.processed.
Proof.
  apply (process_idempotent sample.band_2 sample.band_2 sample.raw).
  reflexivity.
Defined.

Lemma shape_grid_map {A B : Type} (f : A → B) (g : list (list A)) :
  shape (grid_map f g) = shape g.
Proof.
  unfold shape, grid_map. rewrite <- list_fmap_compose.
  apply list_fmap_ext. intros _ row _. simpl. apply length_map.
Qed.

(** X4.  For a dataset whose raw radiance is an image and whose calibration
    constants are scalars, both products of [_process] are images of the
    shape of the radiance: the step neither drops nor adds a pixel. *)
Theorem process_keeps_image_shape
    {F : Type} `{NumOps F} `{LogOp F} (self : scan.GoesScan F)
    (ds : gmap string (DataArray F)) (raw_radiance : list (list F))
    (kappa0 planck_fk1 planck_fk2 planck_bc1 planck_bc2 : F) :
  ds !! "Rad" = Some (Grid raw_radiance) →
  ds !! "kappa0" = Some (Scalar kappa0) →
  ds !! "planck_fk1" = Some (Scalar planck_fk1) →
  ds !! "planck_fk2" = Some (Scalar planck_fk2) →
  ds !! "planck_bc1" = Some (Scalar planck_bc1) →
  ds !! "planck_bc2" = Some (Scalar planck_bc2) →
  ∃ ds' reflectance temperature,
    scan._process self ds = Ok ds' ∧
    ds' !! "reflectance_factor" = Some (Grid reflectance) ∧
    ds' !! "brightness_temperature" = Some (Grid temperature) ∧
    shape reflectance = shape raw_radiance ∧
    shape temperature = shape raw_radiance.
Proof.
  intros HRad Hk Hfk1 Hfk2 Hbc1 Hbc2.
  eexists _, _, _. split; [|split; [|split; [|split]]].
  - apply process_Ok_iff. by eexists _, _, _, _, _, _.
  - rewrite lookup_insert_ne by done. rewrite lookup_insert_eq. reflexivity.
  - rewrite lookup_insert_eq. reflexivity.
  - apply shape_grid_map.
  - by rewrite !shape_grid_map.
Qed.

Lemma process_keeps_image_shape_witness :
  ∃ ds' reflectance temperature,
    scan._process sample.band_2 sample.raw = Ok ds' ∧
    ds' !! "reflectance_factor" = Some (Grid reflectance) ∧
    ds' !! "brightness_temperature" = Some (Grid temperature) ∧
    shape reflectance = [2; 2]%nat ∧ shape temperature = [2; 2]%nat.
Proof.
  exact (process_keeps_image_shape sample.band_2 sample.raw
           [[2; 4]; [5; 8]]%R (1 / 4)%R 200000%R 3700%R (1 / 2)%R 1%R
           eq_refl eq_refl eq_refl eq_refl eq_refl eq_refl).
Defined.

(** X5.  When the band file is in the local directory, [_get] does not
    call the downloader: its result is the processed local file, whatever
    [download_scan] would do. *)
Theorem get_prefers_local_copy
    {F : Type} `{NumOps F} `{LogOp F} (env : scan.Collaborators F)
    (self : scan.GoesScan F)
    (download_scan' : string → string → string → result string) :
  scan.os_path_exists env
    (scan.build_local_path env (scan.local_directory self)
       (scan.filepath self) (scan.satellite self)) = true →
  scan._get env self =
    scan._get
      {| scan.parse_filepath := scan.parse_filepath env;
         scan.build_local_path := scan.build_local_path env;
         scan.os_path_exists := scan.os_path_exists env;
         scan.open_dataset := scan.open_dataset env;
         scan.download_scan := download_scan' |} self ∧
  scan._get env self =
    scan.open_dataset env
      (scan.build_local_path env (scan.local_directory self)
         (scan.filepath self) (scan.satellite self))
    ≫= scan._process self.
Proof.
  intros Hexists. unfold scan._get, scan._check_local. simpl.
  rewrite Hexists.
  by destruct (scan.open_dataset env _).
Qed.

Lemma get_prefers_local_copy_witness :
  scan._get (fixtures.toy_io true false) sample.band_2 =
    scan._get (fixtures.toy_io true true) sample.band_2.
Proof.
  exact (proj1 (get_prefers_local_copy (fixtures.toy_io true false)
                  sample.band_2
                  (scan.download_scan (fixtures.toy_io true true))
                  eq_refl)).
Defined.

(** X6.  When the band file is not in the local directory and the
    downloader raises, constructing the [GoesScan] raises the downloader's
    exception: the module handles no retrieval failure. *)
Theorem init_propagates_download_failure
    {F : Type} `{NumOps F} `{LogOp F} (env : scan.Collaborators F)
    (filepath local_directory region satellite : string) (channel : Z)
    (started_at_utc : datetime) (e : exception) :
  scan.parse_filepath env filepath =
    Ok (region, channel, satellite, started_at_utc) →
  scan.os_path_exists env
    (scan.build_local_path env local_directory filepath satellite) = false →
  scan.download_scan env satellite filepath local_directory = Raise e →
  scan.__init__ env filepath local_directory = Raise e.
Proof.
  intros Hparse Hmissing Hdownload.
  unfold scan.__init__, scan._get, scan._check_local.
  rewrite Hparse. simpl. rewrite Hmissing. simpl. by rewrite Hdownload.
Qed.

Lemma init_propagates_download_failure_witness :
  scan.__init__ (fixtures.toy_io false false) "band_2.nc" "downloaded_data" =
    Raise (OSError "404 Not Found").
Proof.
  exact (init_propagates_download_failure (fixtures.toy_io false false)
           "band_2.nc" "downloaded_data" "M1" "goes17" 2 sample.started
           (OSError "404 Not Found") eq_refl eq_refl eq_refl).
Defined.

(** X7.  A [GoesScan] that was constructed carries what [parse_filepath]
    read from the path, the path and directory it was given, and a dataset
    with both products; so [plot] returns for it, whatever its channel. *)
Theorem init_gives_plottable_scan
    {F : Type} `{NumOps F} `{LogOp F} (env : scan.Collaborators F)
    (filepath local_directory : string) (self : scan.GoesScan F) :
  scan.__init__ env filepath local_directory = Ok self →
  scan.parse_filepath env filepath =
    Ok (scan.region self, scan.channel self, scan.satellite self,
        scan.started_at_utc self) ∧
  scan.filepath self = filepath ∧
  scan.local_directory self = local_directory ∧
  is_Some (scan.dataset self !! "reflectance_factor") ∧
  is_Some (scan.dataset self !! "brightness_temperature") ∧
  ∃ axes, scan.plot self = Ok axes.
Proof.
  unfold scan.__init__. intros ([[[region channel] satellite] started] &
                                Hparse & Hrest)%bind_Ok.
  apply bind_Ok in Hrest as (ds' & Hget & [= <-]). simpl.
  unfold scan._get in Hget.
  apply bind_Ok in Hget as (local & _ & Hget).
  apply bind_Ok in Hget as (raw & _ & Hprocess).
  apply process_Ok_iff in Hprocess
    as (Rad & kappa0 & fk1 & fk2 & bc1 & bc2 & _ & _ & _ & _ & _ & _ & ->).
  split; [done|]. split; [done|]. split; [done|].
  assert (Hrf :
    (<["brightness_temperature" :=
         brightness_temperature_of fk1 fk2 bc1 bc2 Rad]>
       (<["reflectance_factor" := broadcast fmul Rad kappa0]> raw)
       : gmap string (DataArray F)) !! "reflectance_factor" =
      Some (broadcast fmul Rad kappa0)).
  { rewrite lookup_insert_ne by done. apply lookup_insert_eq. }
  split; [by eexists|]. split; [eexists; apply lookup_insert_eq|].
  unfold scan.plot. simpl. destruct (scan.in_range 1 6 channel).
  - rewrite (proj2 (getattr_Ok _ _ _) Hrf). simpl. by eexists.
  - rewrite (proj2 (getattr_Ok _ _ _)
               (lookup_insert_eq _ "brightness_temperature" _)).
    simpl. by eexists.
Qed.

Lemma init_gives_plottable_scan_witness :
  ∃ axes, scan.plot sample.band_2 = Ok axes.
Proof.
  apply (init_gives_plottable_scan (fixtures.toy_io true true)
           "ABI-L1b-RadM/2019/300/20/band_2.nc" "downloaded_data"
           sample.band_2).
  reflexivity.
Defined.

(** * Further properties of the batch search *)

Section BatchFacts.
Context {F : Type} {gl1 : goes_level_1.Interface F}
  {tests : threshold_model.PixelTests F}.
Import goes_level_1_wildfires.

(** What [parse_scan_for_wildfire] returns does not depend on the world. *)
Lemma parse_scan_for_wildfire_result filepaths w w' :
  (parse_scan_for_wildfire filepaths w).1 =
  (parse_scan_for_wildfire filepaths w').1.
Proof.
  rewrite !parse_scan_for_wildfire_run.
  by destruct (goes_level_1.read_netcdfs filepaths) as [goes_scan|[]].
Qed.

Lemma map_function_result scan_filepaths pbs pbs' w w' :
  (multiprocessing.map_function parse_scan_for_wildfire scan_filepaths pbs w).1
  = (multiprocessing.map_function parse_scan_for_wildfire scan_filepaths pbs'
       w').1.
Proof.
  revert w w'. induction scan_filepaths as [|g rest IH]; intros w w'; simpl;
    [done|].
  unfold mbind, M_bind.
  pose proof (parse_scan_for_wildfire_result g w w') as Hfst.
  destruct (parse_scan_for_wildfire g w) as [[r|e] w1],
           (parse_scan_for_wildfire g w') as [[r'|e'] w1'];
    simpl in Hfst; try done.
  - injection Hfst as <-. specialize (IH w1 w1').
    destruct (multiprocessing.map_function _ rest pbs w1) as [[rs|e] w2],
             (multiprocessing.map_function _ rest pbs' w1') as [[rs'|e'] w2'];
      simpl in *; congruence.
  - simpl. congruence.
Qed.

(** A run of [map_function] that returns: no group raised anything but a
    [ValueError], and the results are the groups' own, in order. *)
Lemma map_function_Ok scan_filepaths pbs w results w' :
  multiprocessing.map_function parse_scan_for_wildfire scan_filepaths pbs w =
    (Ok results, w') →
  Forall (fun g => ∀ e, goes_level_1.read_netcdfs g = Raise e →
                        is_ValueError e = true) scan_filepaths ∧
  results =
    (fun g =>
       match goes_level_1.read_netcdfs g with
       | Ok goes_scan =>
           if float_gt (ndarray_mean (predict_wildfires goes_scan)) 0 then
             Some [("scan_time_utc",
                    strftime (goes_level_1.scan_time_utc goes_scan)
                      "%Y-%m-%dT%H:%M:%S%f");
                   ("region", goes_level_1.region goes_scan);
                   ("satellite", goes_level_1.satellite goes_scan)]
           else None
       | Raise _ => None
       end) <$> scan_filepaths.
Proof.
  revert w results. induction scan_filepaths as [|g rest IH];
    intros w results; simpl.
  { unfold mret, M_ret. intros [= <- <-]. by split. }
  unfold mbind, M_bind. rewrite parse_scan_for_wildfire_run.
  destruct (goes_level_1.read_netcdfs g) as [goes_scan|e] eqn:Hread.
  - destruct (multiprocessing.map_function _ rest pbs w) as [[rs|e] w1]
      eqn:Hrest; [|done].
    unfold mret, M_ret. intros [= <- <-].
    destruct (IH _ _ Hrest) as [Hhandled ->].
    split; [|done]. constructor; [|done]. intros e. by rewrite Hread.
  - destruct e; try done.
    match goal with
    | |- context [multiprocessing.map_function _ rest pbs ?w1] =>
        destruct (multiprocessing.map_function _ rest pbs w1)
          as [[rs|e] w2] eqn:Hrest; [|done]
    end.
    unfold mret, M_ret. intros [= <- <-].
    destruct (IH _ _ Hrest) as [Hhandled ->].
    split; [|done]. constructor; [|done].
    intros e0 He0. rewrite Hread in He0. by injection He0 as <-.
Qed.

(** Records are not empty, so [filter(None, ...)] drops the [None] entries
    and nothing else. *)
Lemma filter_None_fmap {A V : Type} (f : A → option (pydict V)) (l : list A) :
  (∀ a, f a ≠ Some []) → filter_None (f <$> l) = omap f l.
Proof.
  intros Hf. unfold filter_None. induction l as [|a l IH]; [done|].
  rewrite fmap_cons. specialize (Hf a).
  destruct (f a) as [[|kv d]|] eqn:Hfa; [done| |].
  - cbn. rewrite Hfa. f_equal. exact IH.
  - cbn. rewrite Hfa. exact IH.
Qed.
End BatchFacts.

Section BatchEvents.
Context {F : Type} {gl1 : goes_level_1.Interface F}
  {tests : threshold_model.PixelTests F}.
Import goes_level_1_wildfires.


End BatchEvents.

(** The decimal string of a natural number determines the number. *)
Lemma str_int_of_nat_inj (i j : nat) :
  str_int (Z.of_nat i) = str_int (Z.of_nat j) → i = j.
Proof.
  assert (Hstr : ∀ n : nat,
    str_int (Z.of_nat n) = NilZero.string_of_uint (N.to_uint (N.of_nat n))).
  { intros n. unfold str_int.
    replace (N.of_nat n) with (Z.to_N (Z.of_nat n)) by lia.
    destruct (Z.of_nat n) eqn:Hn; try reflexivity. lia. }
  assert (Hnonnil : ∀ n : N, N.to_uint n ≠ Decimal.Nil).
  { intros [|p]; [done|]. apply DecimalPos.Unsigned.to_uint_nonnil. }
  rewrite !Hstr. intros Heq.
  apply (f_equal NilZero.uint_of_string) in Heq.
  rewrite !NilZero.usu in Heq by apply Hnonnil. injection Heq as Heq.
  apply DecimalN.Unsigned.to_uint_inj in Heq. lia.
Qed.

Lemma length_omap_le {A B : Type} (f : A → option B) (l : list A) :
  (length (omap f l) ≤ length l)%nat.
Proof.
  induction l as [|a l IH]; [done|]. cbn. destruct (f a); simpl; lia.
Qed.

(** X9.  When [find_wildfires] returns, it returns, in the order of the
    groups, exactly the records of the groups that assemble and whose
    prediction has a mean above zero: never more records than groups, and
    no group raised anything but a [ValueError]. *)
Theorem find_wildfires_returns_positive_groups
    {F : Type} {gl1 : goes_level_1.Interface F}
    {tests : threshold_model.PixelTests F}
    (filepaths : list string) (pbs : bool) (w w' : World)
    (wildfires : list (pydict string)) :
  goes_level_1_wildfires.find_wildfires filepaths pbs w = (Ok wildfires, w') →
  let scan_filepaths := goes_level_1.group_filepaths_into_scans filepaths in
  wildfires =
    omap (fun g =>
            match goes_level_1.read_netcdfs g with
            | Ok goes_scan =>
                if float_gt
                     (ndarray_mean
                        (goes_level_1_wildfires.predict_wildfires goes_scan)) 0
                then
                  Some [("scan_time_utc",
                         strftime (goes_level_1.scan_time_utc goes_scan)
                           "%Y-%m-%dT%H:%M:%S%f");
                        ("region", goes_level_1.region goes_scan);
                        ("satellite", goes_level_1.satellite goes_scan)]
                else None
            | Raise _ => None
            end) scan_filepaths ∧
  (length wildfires ≤ length scan_filepaths)%nat ∧
  Forall (fun g => ∀ e, goes_level_1.read_netcdfs g = Raise e →
                        is_ValueError e = true) scan_filepaths.
Proof.
  rewrite find_wildfires_run. cbv zeta.
  destruct (multiprocessing.map_function _ _ _ _) as [[results|e] w3]
    eqn:Hrun; [|done].
  intros [= <- <-]. apply map_function_Ok in Hrun as [Hhandled ->].
  rewrite filter_None_fmap.
  - split; [done|]. split; [apply length_omap_le|done].
  - intros g. destruct (goes_level_1.read_netcdfs g); [|done].
    by destruct (float_gt _ _).
Qed.

Lemma find_wildfires_returns_positive_groups_witness :
  (goes_level_1_wildfires.find_wildfires
     (gl1 := sample.toy_goes_level_1) (tests := sample.toy_pixel_tests)
     ["calm.nc"; "fire.nc"; "short.nc"] false sample.world).1 =
    Ok [sample.fire_record].
Proof.
  destruct (goes_level_1_wildfires.find_wildfires
              (gl1 := sample.toy_goes_level_1)
              (tests := sample.toy_pixel_tests)
              ["calm.nc"; "fire.nc"; "short.nc"] false sample.world)
    as [[wildfires|e] w'] eqn:Hrun.
  - destruct (find_wildfires_returns_positive_groups _ _ _ _ _ Hrun)
      as [-> _]. reflexivity.
  - vm_compute in Hrun. discriminate Hrun.
Defined.

(** The events of a run of [map_function] depend on the world through its
    events only. *)
Lemma map_function_events_only
    {F : Type} {gl1 : goes_level_1.Interface F}
    {tests : threshold_model.PixelTests F}
    (scan_filepaths : list (list string)) (pbs : bool) (w w' : World) :
  events w = events w' →
  events (multiprocessing.map_function
            goes_level_1_wildfires.parse_scan_for_wildfire scan_filepaths
            pbs w).2 =
  events (multiprocessing.map_function
            goes_level_1_wildfires.parse_scan_for_wildfire scan_filepaths
            pbs w').2.
Proof.
  revert w w'. induction scan_filepaths as [|g rest IH]; intros w w' Hevents;
    simpl; [done|].
  unfold mbind, M_bind. rewrite !parse_scan_for_wildfire_run.
  destruct (goes_level_1.read_netcdfs g) as [goes_scan|[]]; simpl; try done.
  - specialize (IH w w' Hevents).
    pose proof (map_function_result rest pbs pbs w w') as Hsame.
    destruct (multiprocessing.map_function _ rest pbs w) as [[rs|e] w2],
             (multiprocessing.map_function _ rest pbs w') as [[rs'|e'] w2'];
      simpl in *; congruence.
  - match goal with
    | |- context [multiprocessing.map_function _ rest pbs (emit ?ev w)] =>
        specialize (IH (emit ev w) (emit ev w'));
        pose proof (map_function_result rest pbs pbs (emit ev w) (emit ev w'))
          as Hsame;
        destruct (multiprocessing.map_function _ rest pbs (emit ev w))
          as [[rs|e] w2],
                 (multiprocessing.map_function _ rest pbs (emit ev w'))
          as [[rs'|e'] w2']
    end; simpl in *; try congruence;
      apply IH; by rewrite Hevents.
Qed.


(** X11.  [find_wildfires] writes no file, and neither the clock nor what
    [open] would raise has a part in it: in two worlds with the same CPU
    count and the same events so far it returns the same and logs the
    same. *)
Theorem find_wildfires_writes_no_file
    {F : Type} {gl1 : goes_level_1.Interface F}
    {tests : threshold_model.PixelTests F}
    (filepaths : list string) (pbs : bool) (w : World)
    (clock : datetime) (open_error' : string → option exception) :
  let w' :=
    {| utcnow := clock; cpu_count := cpu_count w;
       open_error := open_error'; events := events w |} in
  file_writes (goes_level_1_wildfires.find_wildfires filepaths pbs w).2 =
    file_writes w ∧
  (goes_level_1_wildfires.find_wildfires filepaths pbs w').1 =
    (goes_level_1_wildfires.find_wildfires filepaths pbs w).1 ∧
  events (goes_level_1_wildfires.find_wildfires filepaths pbs w').2 =
    events (goes_level_1_wildfires.find_wildfires filepaths pbs w).2.
Proof.
  intros w'. rewrite !find_wildfires_run. cbv zeta. split; [|split].
  - match goal with
    | |- context [multiprocessing.map_function _ ?gs pbs ?w2] =>
        pose proof (map_function_world gs pbs w2) as (_ & Hfiles & _);
        destruct (multiprocessing.map_function _ gs pbs w2) as [[rs|e] w3]
    end; simpl in *.
    + by rewrite file_writes_emit_log, Hfiles, !file_writes_emit_log.
    + by rewrite Hfiles, !file_writes_emit_log.
  - match goal with
    | |- (match multiprocessing.map_function _ ?gs pbs ?w1 with _ => _ end).1
         = (match multiprocessing.map_function _ _ pbs ?w2 with _ => _ end).1
      =>
        pose proof (map_function_result gs pbs pbs w1 w2) as Hsame;
        destruct (multiprocessing.map_function _ gs pbs w1) as [[rs|e] w3],
                 (multiprocessing.map_function _ gs pbs w2) as [[rs'|e'] w3']
    end; simpl in *; congruence.
  - match goal with
    | |- events
           (match multiprocessing.map_function _ ?gs pbs ?w1 with _ => _ end).2
         = events
             (match multiprocessing.map_function _ _ pbs ?w2 with _ => _ end).2
      =>
        pose proof (map_function_result gs pbs pbs w1 w2) as Hsame;
        pose proof (map_function_events_only gs pbs w1 w2 eq_refl) as Hevents;
        destruct (multiprocessing.map_function _ gs pbs w1) as [[rs|e] w3],
                 (multiprocessing.map_function _ gs pbs w2) as [[rs'|e'] w3']
    end; simpl in *; congruence.
Qed.



(** [os.path.join] with a second part that is not absolute. *)
Lemma os_path_join_relative (a : string) (c : ascii) (b : string) :
  c ≠ "/"%char →
  ∃ sep, (sep = "" ∨ sep = "/") ∧
         os_path_join a (String c b) = a +:+ sep +:+ String c b ∧
         (sep = "/" ↔ ∃ d, last_char a = Some d ∧ d ≠ "/"%char).
Proof.
  intros Hc. unfold os_path_join.
  assert (Hhead :
    match String c b with
    | String "/" _ => String c b
    | _ => match last_char a with
           | None => String c b
           | Some d =>
               if decide (d = "/"%char) then a +:+ String c b
               else a +:+ "/" +:+ String c b
           end
    end =
    match last_char a with
    | None => String c b
    | Some d =>
        if decide (d = "/"%char) then a +:+ String c b
        else a +:+ "/" +:+ String c b
    end).
  { destruct c as [[] [] [] [] [] [] [] []]; try reflexivity. done. }
  rewrite Hhead. clear Hhead.
  destruct (last_char a) as [d|] eqn:Hlast.
  - destruct (decide (d = "/"%char)) as [->|Hd].
    + exists "". split; [by left|]. split; [done|].
      split; [done|]. by intros (d & [= <-] & ?).
    + exists "/". split; [by right|]. split; [done|].
      split; [|done]. intros _. by exists d.
  - exists "". split; [by left|]. split.
    + destruct a as [|x a]; [done|].
      unfold last_char in Hlast. by apply last_None in Hlast.
    + split; [done|]. by intros (d & [=] & _).
Qed.

(** X14.  When [label_wildfires] returns a record, the file it writes is
    inside [persist_directory]: its path is the directory, a slash unless
    the directory is empty or ends with one, and the file name. *)
Theorem label_wildfires_writes_inside_persist_directory
    {F : Type} {gl1 : goes_level_1.Interface F}
    {tests : threshold_model.PixelTests F}
    (scan_filepaths : list (list string))
    (persist_directory satellite region : string) (start end_ : datetime)
    (pbs : bool) (w w' : World) (wildfires : list (pydict string)) :
  goes_level_1_wildfires.label_wildfires scan_filepaths persist_directory
    satellite region start end_ pbs w = (Ok wildfires, w') →
  wildfires ≠ [] →
  ∃ sep content,
    (sep = "" ∨ sep = "/") ∧
    (sep = "/" ↔ ∃ d, last_char persist_directory = Some d ∧ d ≠ "/"%char) ∧
    file_writes w' =
      file_writes w ++
      [(persist_directory +:+ sep +:+
        "wildfires_" +:+ satellite +:+ "_" +:+ region +:+
        "_s" +:+ strftime start "%Y-%m-%dT%H:%M:%S" +:+
        "_e" +:+ strftime end_ "%Y-%m-%dT%H:%M:%S" +:+
        "_c" +:+ strftime (utcnow w) "%Y-%m-%dT%H:%M:%S" +:+ ".json",
        content)].
Proof.
  rewrite label_wildfires_run.
  pose proof (map_function_world scan_filepaths pbs w) as (Hnow & Hfiles & _).
  destruct (multiprocessing.map_function _ scan_filepaths pbs w)
    as [[results|e] w1]; simpl in Hnow, Hfiles; [|done].
  cbv zeta. destruct (filter_None results) as [|record rest] eqn:Hfound.
  { simpl. by intros [= <- <-]. }
  replace (0 <? length (record :: rest))%nat with true by reflexivity.
  match goal with
  | |- context [os_path_join _ ("wildfires_" +:+ ?tail)] =>
      destruct (os_path_join_relative persist_directory "w"
                  ("ildfires_" +:+ tail)) as (sep & Hsep & Hjoin & Hslash);
        [done|];
      change (String "w" ("ildfires_" +:+ tail))
        with ("wildfires_" +:+ tail) in Hjoin;
      rewrite Hjoin
  end.
  match goal with
  | |- context [open_error w1 ?path] =>
      destruct (open_error w1 path); [done|]
  end.
  intros Hrun _. apply (f_equal snd) in Hrun. cbn [snd] in Hrun.
  rewrite <- Hrun.
  exists sep. eexists. split; [done|]. split; [done|].
  rewrite file_writes_emit_write, !file_writes_emit_log, Hfiles, Hnow.
  reflexivity.
Qed.

Lemma label_wildfires_writes_inside_persist_directory_witness :
  ∃ sep content,
    file_writes
      (goes_level_1_wildfires.label_wildfires
         (gl1 := sample.toy_goes_level_1) (tests := sample.toy_pixel_tests)
         [["fire.nc"]] "out" "noaa-goes17" "M1" sample.started fixtures.later
         false sample.world).2 =
      [("out" +:+ sep +:+
        "wildfires_noaa-goes17_M1_s2019-10-27T20:48:27" +:+
        "_e2019-10-27T20:49:27_c2020-01-02T03:04:05.json", content)].
Proof.
  destruct (label_wildfires_writes_inside_persist_directory
              (gl1 := sample.toy_goes_level_1)
              (tests := sample.toy_pixel_tests)
              [["fire.nc"]] "out" "noaa-goes17" "M1" sample.started
              fixtures.later false sample.world
              (goes_level_1_wildfires.label_wildfires
                 (gl1 := sample.toy_goes_level_1)
                 (tests := sample.toy_pixel_tests)
                 [["fire.nc"]] "out" "noaa-goes17" "M1" sample.started
                 fixtures.later false sample.world).2
              [sample.fire_record] eq_refl)
    as (sep & content & _ & _ & Hwrites); [done|].
  exists sep, content. exact Hwrites.
Defined.

(** X15.  The JSON object that [label_wildfires] dumps,
    [dict(enumerate(wildfires))], has one member for each record, under keys
    that are all different: member [i] is record [i] under the decimal
    string of [i], so no record hides another in the file. *)
Theorem enumerated_records_have_distinct_keys
    (wildfires : list (pydict string)) :
  ∃ members,
    goes_level_1_wildfires.json_of_indexed (enumerate wildfires) =
      JObject members ∧
    length members = length wildfires ∧
    NoDup members.*1 ∧
    ∀ i,
      members !! i =
        (fun record =>
           (str_int (Z.of_nat i),
            goes_level_1_wildfires.json_of_record record))
          <$> wildfires !! i.
Proof.
  unfold goes_level_1_wildfires.json_of_indexed, enumerate.
  eexists. split; [reflexivity|].
  rewrite fmap_imap. split; [by rewrite length_imap|]. split.
  - rewrite fmap_imap. apply NoDup_alt. intros i j key Hi Hj.
    rewrite list_lookup_imap in Hi, Hj.
    destruct (wildfires !! i), (wildfires !! j); simplify_eq/=.
    by apply str_int_of_nat_inj.
  - intros i. by rewrite list_lookup_imap.
Qed.

(** X16.  The title [plot_wildfires] gives a scan agrees with
    [parse_scan_for_wildfire]: it reads "Wildfire Present: True" exactly
    when the group that assembles into the scan gets a record, and
    "Wildfire Present: False" exactly when it gets [None]; the image shown
    is the prediction and the band shown is band 7. *)
Theorem plot_wildfires_title_agrees_with_parse
    {F : Type} {gl1 : goes_level_1.Interface F}
    {tests : threshold_model.PixelTests F}
    (filepaths : list string) (goes_scan : goes_level_1.GoesScan)
    (w : World) :
  goes_level_1.read_netcdfs filepaths = Ok goes_scan →
  let drawn := goes_level_1_wildfires.plot_wildfires goes_scan in
  (goes_level_1_wildfires.fire_title drawn = "Wildfire Present: True" ↔
   ∃ record,
     (goes_level_1_wildfires.parse_scan_for_wildfire filepaths w).1 =
       Ok (Some record)) ∧
  (goes_level_1_wildfires.fire_title drawn = "Wildfire Present: False" ↔
   (goes_level_1_wildfires.parse_scan_for_wildfire filepaths w).1 = Ok None) ∧
  goes_level_1_wildfires.fire_image drawn =
    goes_level_1_wildfires.predict_wildfires goes_scan ∧
  goes_level_1_wildfires.scan_band drawn =
    goes_level_1.getitem goes_scan "band_7".
Proof.
  intros Hread drawn. unfold drawn, goes_level_1_wildfires.plot_wildfires.
  rewrite parse_scan_for_wildfire_run, Hread. simpl.
  destruct (float_gt _ _); simpl.
  - split; [split; [by eexists|done]|]. split; [|done]. by split.
  - split; [split; [done|by intros [? ?]]|]. split; [|done]. by split.
Qed.

Lemma plot_wildfires_title_agrees_with_parse_witness :
  goes_level_1_wildfires.fire_title
    (goes_level_1_wildfires.plot_wildfires
       (gl1 := sample.toy_goes_level_1) (tests := sample.toy_pixel_tests)
       sample.calm_scan) = "Wildfire Present: False".
Proof.
  apply (plot_wildfires_title_agrees_with_parse
           (gl1 := sample.toy_goes_level_1)
           (tests := sample.toy_pixel_tests)
           ["calm.nc"] sample.calm_scan sample.world eq_refl).
  reflexivity.
Defined.

(** X17.  What [parse_scan_for_wildfire] returns for a group depends on the
    scan only through its time, region and satellite and through the bands
    2, 3, 6, 7, 14 and 15 of the rescaled scan: two groups whose scans agree
    on these get the same result, whatever the other ten bands hold. *)
Theorem parse_reads_six_bands
    {F : Type} {gl1 : goes_level_1.Interface F}
    {tests : threshold_model.PixelTests F}
    (filepaths filepaths' : list string)
    (goes_scan goes_scan' : goes_level_1.GoesScan) (w w' : World) :
  goes_level_1.read_netcdfs filepaths = Ok goes_scan →
  goes_level_1.read_netcdfs filepaths' = Ok goes_scan' →
  goes_level_1.scan_time_utc goes_scan = goes_level_1.scan_time_utc goes_scan' →
  goes_level_1.region goes_scan = goes_level_1.region goes_scan' →
  goes_level_1.satellite goes_scan = goes_level_1.satellite goes_scan' →
  (∀ name,
     name ∈ ["band_2"; "band_3"; "band_6"; "band_7"; "band_14"; "band_15"] →
     goes_level_1.getitem (goes_level_1.rescale_to_2km goes_scan) name =
     goes_level_1.getitem (goes_level_1.rescale_to_2km goes_scan') name) →
  (goes_level_1_wildfires.parse_scan_for_wildfire filepaths w).1 =
  (goes_level_1_wildfires.parse_scan_for_wildfire filepaths' w').1.
Proof.
  intros Hread Hread' Htime Hregion Hsatellite Hbands.
  rewrite !parse_scan_for_wildfire_run, Hread, Hread'. simpl.
  assert (Hpredict :
    goes_level_1_wildfires.predict_wildfires goes_scan =
    goes_level_1_wildfires.predict_wildfires goes_scan').
  { unfold goes_level_1_wildfires.predict_wildfires,
      goes_level_1_wildfires.get_model_features. simpl.
    rewrite !(Hbands "band_2"), !(Hbands "band_3"), !(Hbands "band_6"),
      !(Hbands "band_7"), !(Hbands "band_14"), !(Hbands "band_15")
      by set_solver.
    reflexivity. }
  by rewrite Hpredict, Htime, Hregion, Hsatellite.
Qed.

Lemma parse_reads_six_bands_witness :
  (goes_level_1_wildfires.parse_scan_for_wildfire
     (gl1 := fixtures.three_fires) (tests := sample.toy_pixel_tests)
     ["fire.nc"] sample.world).1 =
  (goes_level_1_wildfires.parse_scan_for_wildfire
     (gl1 := fixtures.three_fires) (tests := sample.toy_pixel_tests)
     ["other.nc"] sample.world).1.
Proof.
  apply (parse_reads_six_bands
           (gl1 := fixtures.three_fires) (tests := sample.toy_pixel_tests)
           ["fire.nc"] ["other.nc"] sample.fire_scan
           fixtures.fire_scan_other_band_1); try reflexivity.
  intros name Hin.
  repeat (apply elem_of_cons in Hin as [->|Hin]; [reflexivity|]).
  by apply elem_of_nil in Hin.
Defined.

(** * The scan time in a record *)

Lemma string_app_inj_length (s1 s2 r1 r2 : string) :
  String.length s1 = String.length s2 → s1 +:+ r1 = s2 +:+ r2 →
  s1 = s2 ∧ r1 = r2.
Proof.
  revert s2. induction s1 as [|c s1 IH]; intros [|c' s2]; simpl; try done.
  intros [= Hlen] [= -> Happ]. destruct (IH s2 Hlen Happ) as [-> ->]. done.
Qed.

Lemma zeros_succ (k : nat) (s : string) :
  String.concat "" (replicate (S k) "0") +:+ s =
  String "0" (String.concat "" (replicate k "0") +:+ s).
Proof. by destruct k. Qed.

(** Reading a zero-padded numeral gives the number. *)
Lemma zfill_value (width : nat) (n : N) :
  N.of_uint <$> NilEmpty.uint_of_string (zfill width n) = Some n.
Proof.
  unfold zfill.
  assert (Hnumeral :
    NilEmpty.uint_of_string (NilZero.string_of_uint (N.to_uint n)) =
      Some (N.to_uint n)).
  { destruct n as [|p]; [reflexivity|]. simpl.
    pose proof (DecimalPos.Unsigned.to_uint_nonnil p) as Hnonnil.
    destruct (Pos.to_uint p) as [|u|u|u|u|u|u|u|u|u|u]; try done;
      match goal with
      | |- _ = Some ?d => exact (NilEmpty.usu d)
      end. }
  set (s := NilZero.string_of_uint (N.to_uint n)) in *.
  induction (width - String.length s)%nat as [|k IH].
  - change (String.concat "" (replicate 0 "0") +:+ s) with s.
    rewrite Hnumeral. simpl. by rewrite DecimalN.Unsigned.of_to.
  - rewrite zeros_succ. cbn [NilEmpty.uint_of_string].
    destruct (NilEmpty.uint_of_string
                (String.concat "" (replicate k "0") +:+ s)) as [d|];
      [|done].
    exact IH.
Qed.

Lemma zfill_inj (width : nat) (n m : N) :
  zfill width n = zfill width m → n = m.
Proof.
  intros Heq. pose proof (zfill_value width n) as Hn.
  rewrite Heq, zfill_value in Hn. by injection Hn.
Qed.

(** Numbers below a bound fill exactly [width] characters, when a check of
    each of them says so. *)
Lemma zfill_length_checked (width bound : nat) :
  forallb (fun k => String.length (zfill width (N.of_nat k)) =? width)%nat
    (seq 0 bound) = true →
  ∀ n, (n < N.of_nat bound)%N → String.length (zfill width n) = width.
Proof.
  intros Hcheck n Hn. rewrite forallb_forall in Hcheck.
  specialize (Hcheck (N.to_nat n)). rewrite N2Nat.id in Hcheck.
  apply Nat.eqb_eq, Hcheck, in_seq. lia.
Qed.

Lemma zfill_2_length (n : N) :
  (n < 100)%N → String.length (zfill 2 n) = 2%nat.
Proof.
  intros Hn. apply (zfill_length_checked 2 100); [by vm_compute|].
  exact Hn.
Qed.

Lemma zfill_4_length (n : N) :
  (n < 10000)%N → String.length (zfill 4 n) = 4%nat.
Proof.
  intros Hn. apply (zfill_length_checked 4 (100 * 100)); [by vm_compute|].
  replace (N.of_nat (100 * 100)) with 10000%N by (by vm_compute).
  exact Hn.
Qed.

Lemma strftime_scan_time (t : datetime) :
  strftime t "%Y-%m-%dT%H:%M:%S%f" =
    zfill 4 (year t) +:+ "-" +:+ zfill 2 (month t) +:+ "-" +:+
    zfill 2 (day t) +:+ "T" +:+ zfill 2 (hour t) +:+ ":" +:+
    zfill 2 (minute t) +:+ ":" +:+ zfill 2 (second t) +:+
    zfill 6 (microsecond t) +:+ "".
Proof. reflexivity. Qed.

(** On valid datetimes the format of the scan time loses nothing. *)
Lemma strftime_scan_time_inj (t1 t2 : datetime) :
  valid_datetime t1 → valid_datetime t2 →
  strftime t1 "%Y-%m-%dT%H:%M:%S%f" = strftime t2 "%Y-%m-%dT%H:%M:%S%f" →
  t1 = t2.
Proof.
  intros (Hy1 & Hm1 & Hd1 & HH1 & HM1 & HS1 & _)
         (Hy2 & Hm2 & Hd2 & HH2 & HM2 & HS2 & _).
  rewrite !strftime_scan_time. intros Heq.
  apply string_app_inj_length in Heq as [Hyear Heq];
    [|by rewrite !zfill_4_length].
  injection Heq as Heq.
  match type of Heq with "" +:+ ?a = "" +:+ ?b => change (a = b) in Heq end.
  apply string_app_inj_length in Heq as [Hmonth Heq];
    [|by rewrite !zfill_2_length].
  injection Heq as Heq.
  match type of Heq with "" +:+ ?a = "" +:+ ?b => change (a = b) in Heq end.
  apply string_app_inj_length in Heq as [Hday Heq];
    [|by rewrite !zfill_2_length].
  injection Heq as Heq.
  match type of Heq with "" +:+ ?a = "" +:+ ?b => change (a = b) in Heq end.
  apply string_app_inj_length in Heq as [Hhour Heq];
    [|by rewrite !zfill_2_length].
  injection Heq as Heq.
  match type of Heq with "" +:+ ?a = "" +:+ ?b => change (a = b) in Heq end.
  apply string_app_inj_length in Heq as [Hminute Heq];
    [|by rewrite !zfill_2_length].
  injection Heq as Heq.
  match type of Heq with "" +:+ ?a = "" +:+ ?b => change (a = b) in Heq end.
  apply string_app_inj_length in Heq as [Hsecond Heq];
    [|by rewrite !zfill_2_length].
  assert (Hmicro : zfill 6 (microsecond t1) = zfill 6 (microsecond t2)).
  { revert Heq. generalize (zfill 6 (microsecond t1)) (zfill 6 (microsecond t2)).
    intros a b. revert b. induction a as [|c a IH]; intros [|c' b]; simpl;
      try done. intros [= -> Hab]. by rewrite (IH b Hab). }
  apply zfill_inj in Hyear, Hmonth, Hday, Hhour, Hminute, Hsecond, Hmicro.
  destruct t1, t2; simpl in *; by subst.
Qed.

(** X18.  A record identifies the scan it was made from: when two groups
    that assemble into scans with valid times get the same record from
    [parse_scan_for_wildfire], the scans have the same time, region and
    satellite. *)
Theorem wildfire_record_identifies_scan
    {F : Type} {gl1 : goes_level_1.Interface F}
    {tests : threshold_model.PixelTests F}
    (filepaths filepaths' : list string)
    (goes_scan goes_scan' : goes_level_1.GoesScan) (w w' : World)
    (record : pydict string) :
  goes_level_1.read_netcdfs filepaths = Ok goes_scan →
  goes_level_1.read_netcdfs filepaths' = Ok goes_scan' →
  valid_datetime (goes_level_1.scan_time_utc goes_scan) →
  valid_datetime (goes_level_1.scan_time_utc goes_scan') →
  (goes_level_1_wildfires.parse_scan_for_wildfire filepaths w).1 =
    Ok (Some record) →
  (goes_level_1_wildfires.parse_scan_for_wildfire filepaths' w').1 =
    Ok (Some record) →
  goes_level_1.scan_time_utc goes_scan = goes_level_1.scan_time_utc goes_scan' ∧
  goes_level_1.region goes_scan = goes_level_1.region goes_scan' ∧
  goes_level_1.satellite goes_scan = goes_level_1.satellite goes_scan'.
Proof.
  intros Hread Hread' Hvalid Hvalid'.
  rewrite !parse_scan_for_wildfire_run, Hread, Hread'. simpl.
  destruct (float_gt _ _); [|done]. intros [= <-].
  destruct (float_gt _ _); [|done]. intros [= Htime Hregion Hsatellite].
  split; [|done]. symmetry. by apply strftime_scan_time_inj.
Qed.

Lemma wildfire_record_identifies_scan_witness :
  goes_level_1.scan_time_utc (Interface := fixtures.three_fires)
    sample.fire_scan =
  goes_level_1.scan_time_utc (Interface := fixtures.three_fires)
    fixtures.fire_scan_other_band_1.
Proof.
  apply (wildfire_record_identifies_scan
           (gl1 := fixtures.three_fires) (tests := sample.toy_pixel_tests)
           ["fire.nc"] ["other.nc"] sample.fire_scan
           fixtures.fire_scan_other_band_1 sample.world sample.world
           sample.fire_record);
    try reflexivity; vm_compute; repeat split.
Defined.
